(** * graphite-cli stack engine: restack traversal and submit pipeline

    A shallow embedding of
    - [src/commands/original-commands/restack/index.ts] (module [Restack]),
    - [src/actions/submit/validate_branches.ts] and
      [apps/cli/src/actions/submit/submit_prs.ts] (module [Submit]).

    The TypeScript code is effectful: it writes branch metadata, launches
    [git] child processes, talks to the review host, prints, throws and calls
    [process.exit].  Every function of the source becomes a computation in a
    state-and-outcome monad over an explicit world; everything the source
    imports from outside these files (the Git subprocesses, the server, the
    user at the prompt, helper modules) is a field of a type class, so the
    theorems hold for every behaviour of those collaborators. *)

From Stdlib Require Import Ascii String ZArith.
From stdpp Require Import gmap strings list pretty relations.

(** ** Outcomes and the effect monad *)

(** The error classes of [lib/errors] that the embedded code throws, the
    error [child_process.execSync] throws on a non-zero exit status, and the
    [TypeError] of a property read on [undefined]. *)
Inductive Error :=
| ChildProcessError (command : string)
| PreconditionsFailedError (message : string)
| ValidationFailedError (message : string)
| ExitFailedError (message : string)
| KilledError
| TypeError.

(** How a call ends: it returns, an exception propagates out of it, the
    process is terminated by [process.exit], or the model's recursion bound
    is reached ([OutOfFuel], which the source does not have). *)
Inductive Outcome (A : Type) :=
| Returned (a : A)
| Threw (e : Error)
| Exited (code : Z)
| OutOfFuel.
Arguments Returned {A} a.
Arguments Threw {A} e.
Arguments Exited {A} code.
Arguments OutOfFuel {A}.

Definition M (W A : Type) : Type := W → Outcome A * W.

Definition ret {W A} (a : A) : M W A := λ w, (Returned a, w).

Definition bind {W A B} (m : M W A) (k : A → M W B) : M W B :=
  λ w, match m w with
       | (Returned a, w') => k a w'
       | (Threw e, w') => (Threw e, w')
       | (Exited c, w') => (Exited c, w')
       | (OutOfFuel, w') => (OutOfFuel, w')
       end.

Notation "'let*' x ':=' e 'in' k" := (bind e (λ x, k))
  (at level 10, x name, e at level 100, k at level 200, only parsing).
Notation "e ';;;' k" := (bind e (λ _, k))
  (at level 100, k at level 200, right associativity, only parsing).

Definition throw {W A} (e : Error) : M W A := λ w, (Threw e, w).
Definition process_exit {W A} (code : Z) : M W A := λ w, (Exited code, w).
Definition reads {W A} (f : W → A) : M W A := λ w, (Returned (f w), w).
Definition modify {W} (f : W → W) : M W unit := λ w, (Returned tt, f w).

(** [for (const x of l) { body x }] *)
Fixpoint for_of {W A} (l : list A) (body : A → M W unit) : M W unit :=
  match l with
  | [] => ret tt
  | x :: l' => body x ;;; for_of l' body
  end.

(** [try { m } catch { throw e }]: an exception leaving [m] is replaced by
    [e]; [process.exit] is not an exception. *)
Definition try_catch_rethrow {W A} (m : M W A) (e : Error) : M W A :=
  λ w, match m w with
       | (Threw _, w') => (Threw e, w')
       | r => r
       end.

Definition dq : string := String "034"%char EmptyString.
Definition nl : string := String "010"%char EmptyString.

(** JavaScript truthiness of a [string | undefined]. *)
Definition truthy_string (s : option string) : option string :=
  match s with
  | Some EmptyString => None
  | Some s => Some s
  | None => None
  end.

(** The wrapper class [Branch]: an object around the branch name. *)
Record Branch := mkBranch { name : string }.

Global Instance Branch_eq_dec : EqDecision Branch.
Proof. solve_decision. Defined.

(** ** The restack command *)
Module Restack.

(** Modelled from the spec: the meta store behind [wrapper-classes/branch]
    is outside the sources; it keeps, per branch name, the parent name and
    the previous ref, and lists the tracked branches in a fixed order. *)
Record Meta := mkMeta {
  parents : gmap string string;
  prevRefs : gmap string string;
  tracked : list string;
}.

Inductive Output :=
| Log (message : string) (silent : bool)
| ErrorAndExit (message : string)
| PrintStacks.

(** The writes and subprocess launches of a run, as they happen. *)
Inductive Event :=
| SetPrevRef (branch ref : string)
| SetParent (branch parent : string)
| Checkout (branch : string)
| Exec (command : string).

(** [git] is the state of the repository as Git sees it; [trace] lists the
    meta writes, checkouts and [execSync] commands so far, oldest first. *)
Record World (G : Type) := mkWorld {
  git : G;
  meta : Meta;
  output : list Output;
  trace : list Event;
}.
Arguments mkWorld {G}.
Arguments git {G}.
Arguments meta {G}.
Arguments output {G}.
Arguments trace {G}.

(** What the file imports and does not define, over a repository state [G]
    on which the Git subprocesses act (they do not touch the metadata).
    - [git_exec] is the shell run by [execSync]: whether the exit status is
      zero, and the repository afterwards;
    - [git_checkout] is [checkoutBranch] of [lib/utils], with its outcome;
    - [git_revParse] is the SHA read by [Branch.getCurrentRef], and
      [git_mergeBase] the live [git merge-base], if any;
    - [validate_ok] tells whether the validate command returns rather than
      throws; it reads and never writes;
    - [in_trunkBranches n] is the value of
      [trunkBranches && n in trunkBranches];
    - [logErrorAndExit_code] is the exit status used by [logErrorAndExit];
    - [chalk_red] is the colouring of [chalk.red]. *)
Class Host (G : Type) := {
  git_rebaseInProgress : G → bool;
  git_uncommittedChanges : G → bool;
  git_checkout : string → G → Outcome unit * G;
  git_exec : string → G → bool * G;
  git_currentBranch : G → option Branch;
  git_revParse : string → G → string;
  git_mergeBase : string → string → G → option string;
  validate_ok : G → Meta → bool;
  in_trunkBranches : string → bool;
  CURRENT_REPO_CONFIG_PATH : string;
  logErrorAndExit_code : Z;
  chalk_red : string → string;
}.

Record argsT := mkArgs { silent : bool; onto : option string }.

Section Code.
Context {G : Type} `{!Host G}.

Definition emit (o : Output) : M (World G) unit :=
  modify (λ w, mkWorld (git w) (meta w) (output w ++ [o]) (trace w)).

Definition set_meta (f : Meta → Meta) (e : Event) : M (World G) unit :=
  modify (λ w, mkWorld (git w) (f (meta w)) (output w) (trace w ++ [e])).

(** [log] of [lib/log] receives the message and the arguments, of which it
    looks at [silent]. *)
Definition log (message : string) (argv : argsT) : M (World G) unit :=
  emit (Log message (silent argv)).

(** [logErrorAndExit] of [lib/utils] prints the message and ends the
    process. *)
Definition logErrorAndExit {A} (message : string) : M (World G) A :=
  emit (ErrorAndExit message) ;;; process_exit logErrorAndExit_code.

Definition rebaseInProgress : M (World G) bool :=
  reads (λ w, git_rebaseInProgress (git w)).

Definition uncommittedChanges : M (World G) bool :=
  reads (λ w, git_uncommittedChanges (git w)).

Definition checkoutBranch (branch : string) : M (World G) unit :=
  λ w, let '(r, g) := git_checkout branch (git w) in
       (r, mkWorld g (meta w) (output w) (trace w ++ [Checkout branch])).

Definition execSync (command : string) : M (World G) unit :=
  λ w, let '(ok, g) := git_exec command (git w) in
       let w' := mkWorld g (meta w) (output w) (trace w ++ [Exec command]) in
       if ok then (Returned tt, w') else (Threw (ChildProcessError command), w').

Definition getCurrentBranch : M (World G) (option Branch) :=
  reads (λ w, git_currentBranch (git w)).

Definition getCurrentRef (b : Branch) : M (World G) string :=
  reads (λ w, git_revParse (name b) (git w)).

(** Modelled from the spec: [Branch.getParentFromMeta] is outside the
    sources; it returns the branch named by the stored parent, or nothing. *)
Definition getParentFromMeta (b : Branch) : M (World G) (option Branch) :=
  reads (λ w, mkBranch <$> parents (meta w) !! name b).

(** Modelled from the spec: [Branch.getChildrenFromMeta] is outside the
    sources; it enumerates the tracked branches whose stored parent is this
    branch, in the order of the listing. *)
Definition child_names (m : Meta) (n : string) : list string :=
  filter (λ c, parents m !! c = Some n) (tracked m).

Definition children_of (m : Meta) (n : string) : list Branch :=
  mkBranch <$> child_names m n.

(** Modelled from the spec: see [child_names]. *)
Definition getChildrenFromMeta (b : Branch) : M (World G) (list Branch) :=
  reads (λ w, children_of (meta w) (name b)).

(** Modelled from the spec: [Branch.getMetaMergeBase] is outside the
    sources; it returns the previous ref if set, else the live
    [merge-base] of the branch and its parent. *)
Definition metaMergeBase (b : string) (w : World G) : option string :=
  match prevRefs (meta w) !! b with
  | Some r => Some r
  | None => match parents (meta w) !! b with
            | Some p => git_mergeBase b p (git w)
            | None => None
            end
  end.

(** Modelled from the spec: see [metaMergeBase]. *)
Definition getMetaMergeBase (b : Branch) : M (World G) (option string) :=
  reads (metaMergeBase (name b)).

(** Modelled from the spec: [Branch.setMetaPrevRef] is outside the sources;
    it writes the previous ref of the branch. *)
Definition setMetaPrevRef (b : Branch) (ref : string) : M (World G) unit :=
  set_meta
    (λ m, mkMeta (parents m) (<[name b := ref]> (prevRefs m)) (tracked m))
    (SetPrevRef (name b) ref).

(** Modelled from the spec: [Branch.setParentBranchName] is outside the
    sources; it writes the parent of the branch. *)
Definition setParentBranchName (b : Branch) (parent : string)
  : M (World G) unit :=
  set_meta
    (λ m, mkMeta (<[name b := parent]> (parents m)) (prevRefs m) (tracked m))
    (SetParent (name b) parent).

(** The print-stacks command, run for its output. *)
Definition printStacks : M (World G) unit := emit PrintStacks.

Definition validateCommand : M (World G) bool :=
  reads (λ w, validate_ok (git w) (meta w)).

(** *** Messages *)

Definition msg_no_parent_onto (b : string) : string :=
  "Cannot " +:+ dq +:+ "restack --onto" +:+ dq +:+ ", (" +:+ b +:+
  ") has no parent as defined by the meta.".

Definition msg_trunk (b : string) (onto : option string) : string :=
  "Cannot restack (" +:+ b +:+ ") onto " +:+ default "undefined" onto +:+
  ", (" +:+ b +:+ ") is listed in (" +:+ CURRENT_REPO_CONFIG_PATH +:+
  ") as a trunk branch.".

Definition msg_validate : string :=
  "Cannot " +:+ dq +:+ "restack --onto" +:+ dq +:+
  ", git derived stack must match meta defined stack. Consider running " +:+
  dq +:+ "restack" +:+ dq +:+ " or " +:+ dq +:+ "fix" +:+ dq +:+ " first.".

Definition msg_rebase_in_progress (b : string) : string :=
  "Interactive rebase in progress, cannot restack (" +:+ b +:+
  "). Complete the rebase and re-run restack command.".

Definition msg_no_parent (b : string) : string :=
  "Cannot find parent from meta defined stack for (" +:+ b +:+
  "), stopping restack".

Definition msg_no_merge_base (b : string) : string :=
  "Cannot find a merge base from meta defined stack for (" +:+ b +:+
  "), stopping restack".

Definition cmd_rebase (newBase oldBase branch : string) : string :=
  "git rebase --onto " +:+ newBase +:+ " " +:+ oldBase +:+ " " +:+ branch.

Definition cmd_rebase_onto (onto branch parent : string) : string :=
  "git rebase --onto " +:+ onto +:+ " $(git merge-base " +:+ branch +:+ " " +:+
  parent +:+ ") " +:+ branch.

(** *** The functions of [restack/index.ts] *)

Definition getParentForRebaseOnto (branch : Branch) (argv : argsT)
  : M (World G) Branch :=
  let* parent := getParentFromMeta branch in
  match parent with
  | None =>
      log (chalk_red (msg_no_parent_onto (name branch))) argv ;;;
      process_exit 1
  | Some parent => ret parent
  end.

Definition checkBranchCanBeMoved (branch : Branch) (opts : argsT)
  : M (World G) unit :=
  if in_trunkBranches (name branch) then
    log (chalk_red (msg_trunk (name branch) (onto opts))) opts ;;;
    process_exit 1
  else ret tt.

Definition validate (argv : argsT) : M (World G) unit :=
  let* ok := validateCommand in
  if ok then ret tt
  else log (chalk_red msg_validate) argv ;;; process_exit 1.

Fixpoint restackBranch (fuel : nat) (currentBranch : Branch) (opts : argsT)
  : M (World G) unit :=
  match fuel with
  | O => λ w, (OutOfFuel, w)
  | S fuel' =>
      let* inProgress := rebaseInProgress in
      (if inProgress
       then logErrorAndExit (msg_rebase_in_progress (name currentBranch))
       else ret tt) ;;;
      let* parentBranch := getParentFromMeta currentBranch in
      match parentBranch with
      | None => logErrorAndExit (msg_no_parent (name currentBranch))
      | Some parentBranch =>
          let* mergeBase := getMetaMergeBase currentBranch in
          match truthy_string mergeBase with
          | None => logErrorAndExit (msg_no_merge_base (name currentBranch))
          | Some mergeBase =>
              let* ref := getCurrentRef currentBranch in
              setMetaPrevRef currentBranch ref ;;;
              checkoutBranch (name currentBranch) ;;;
              execSync (cmd_rebase (name parentBranch) mergeBase
                          (name currentBranch)) ;;;
              let* children := getChildrenFromMeta currentBranch in
              for_of children (λ child, restackBranch fuel' child opts)
          end
      end
  end.

Definition restackOnto (fuel : nat) (currentBranch : Branch) (onto : string)
    (argv : argsT) : M (World G) unit :=
  checkBranchCanBeMoved currentBranch argv ;;;
  validate argv ;;;
  let* parent := getParentForRebaseOnto currentBranch argv in
  let* ref := getCurrentRef currentBranch in
  setMetaPrevRef currentBranch ref ;;;
  execSync (cmd_rebase_onto onto (name currentBranch) (name parent)) ;;;
  setParentBranchName currentBranch onto ;;;
  let* children := getChildrenFromMeta currentBranch in
  for_of children (λ child, restackBranch fuel child argv).

(** [RestackCommand._execute] *)
Definition _execute (fuel : nat) (argv : argsT) : M (World G) unit :=
  let* dirty := uncommittedChanges in
  (if dirty then logErrorAndExit "Cannot restack with uncommitted changes"
   else ret tt) ;;;
  log "Before restack:" argv ;;;
  (if silent argv then ret tt else printStacks) ;;;
  let* originalBranch := getCurrentBranch in
  match originalBranch with
  | None => logErrorAndExit "Not currently on a branch; no target to restack."
  | Some originalBranch =>
      match truthy_string (onto argv) with
      | Some onto => restackOnto fuel originalBranch onto argv
      | None =>
          let* children := getChildrenFromMeta originalBranch in
          for_of children (λ child, restackBranch fuel child argv)
      end ;;;
      checkoutBranch (name originalBranch) ;;;
      log "After restack:" argv ;;;
      (if silent argv then ret tt else printStacks)
  end.

(** *** Notions used to state what a traversal did *)

(** The branches a traversal from [b] visits, parent before children,
    children in listing order, when [fuel] levels suffice. *)
Fixpoint subtree (ch : string → list string) (fuel : nat) (b : string)
  : option (list string) :=
  match fuel with
  | O => None
  | S fuel' => l ← mapM (subtree ch fuel') (ch b); Some (b :: concat l)
  end.

(** The world in which a conflicting rebase of [b] leaves the run. *)
Definition after_conflict (b command : string) (g : G) (w : World G)
  : World G :=
  mkWorld g
    (mkMeta (parents (meta w))
       (<[b := git_revParse b (git w)]> (prevRefs (meta w)))
       (tracked (meta w)))
    (output w)
    (trace w ++
       [SetPrevRef b (git_revParse b (git w)); Checkout b; Exec command]).

(** [events] contain the three steps of restacking [c] onto [p]. *)
Definition restacked (c p : string) (events : list Event) : Prop :=
  ∃ pre tip mergeBase post,
    events = pre ++ [SetPrevRef c tip; Checkout c;
                     Exec (cmd_rebase p mergeBase c)] ++ post.

(** What a call of [restackBranch] that returns has done: it wrote the
    previous refs of the branches of the subtree only, left the parents and
    the listing alone, and started with the three steps on [b]. *)
Definition visited (fuel : nat) (b : Branch) (w w' : World G) : Prop :=
  parents (meta w') = parents (meta w) ∧
  tracked (meta w') = tracked (meta w) ∧
  ∃ l p tip mb rest,
    subtree (child_names (meta w)) fuel (name b) = Some l ∧
    (∀ x, x ∉ l → prevRefs (meta w') !! x = prevRefs (meta w) !! x) ∧
    parents (meta w) !! name b = Some p ∧
    trace w' = trace w ++ [SetPrevRef (name b) tip; Checkout (name b);
                           Exec (cmd_rebase p mb (name b))] ++ rest.

Definition visited_all (fuel : nat) (cs : list Branch) (w w' : World G)
  : Prop :=
  parents (meta w') = parents (meta w) ∧
  tracked (meta w') = tracked (meta w) ∧
  ∃ ls events,
    mapM (subtree (child_names (meta w)) fuel) (name <$> cs) = Some ls ∧
    (∀ x, x ∉ concat ls → prevRefs (meta w') !! x = prevRefs (meta w) !! x) ∧
    trace w' = trace w ++ events ∧
    (∀ c p, c ∈ cs → parents (meta w) !! name c = Some p →
            restacked (name c) p events).

(** Whatever its outcome, a traversal writes previous refs only and adds to
    the trace. *)
Definition extends (w w' : World G) : Prop :=
  parents (meta w') = parents (meta w) ∧
  tracked (meta w') = tracked (meta w) ∧
  ∃ events, trace w' = trace w ++ events.

(** What [restackOnto] of [C] onto [T] may change of the metadata, whatever
    its outcome: the parent of [C], which may become [T]. *)
Definition reparented (C T : string) (w w' : World G) : Prop :=
  tracked (meta w') = tracked (meta w) ∧
  (∀ x, x ≠ C → parents (meta w') !! x = parents (meta w) !! x) ∧
  (parents (meta w') !! C = parents (meta w) !! C ∨
   parents (meta w') !! C = Some T) ∧
  ∃ events, trace w' = trace w ++ events.

(** The world after a refused operation: one more line of output. *)
Definition refused (o : Output) (w : World G) : World G :=
  mkWorld (git w) (meta w) (output w ++ [o]) (trace w).

End Code.
End Restack.

(** ** The submit pipeline *)
Module Submit.

Inductive PRState := OPEN | MERGED | CLOSED.
Inductive ReviewDecision := REVIEW_REQUIRED | APPROVED | CHANGES_REQUESTED.

Global Instance PRState_eq_dec : EqDecision PRState.
Proof. solve_decision. Defined.

(** The stored PR info of a branch; a patch passed to [upsertPrInfo] has the
    same shape, with the keys it does not carry left out. *)
Record PRInfo := mkPRInfo {
  pr_number : option Z;
  pr_url : option string;
  pr_base : option string;
  pr_state : option PRState;
  pr_title : option string;
  pr_body : option string;
  pr_reviewDecision : option ReviewDecision;
  pr_draft : option bool;
}.

Inductive Action := create | update.

(** One entry of [TPRSubmissionInfo]. *)
Record TSubmittedPRRequest := mkRequest {
  req_action : Action;
  req_head : string;
  req_base : string;
  req_title : option string;
  req_body : option string;
  req_draft : option bool;
}.

Inductive SuccessStatus := updated | created.

(** One entry of the server's [prs]: a success or an error, both with the
    head branch name. *)
Inductive TSubmittedPRResponse :=
| ResponseOk (head : string) (status : SuccessStatus) (prNumber : Z)
    (prURL : string)
| ResponseError (head : string) (error : string).

Definition resp_head (r : TSubmittedPRResponse) : string :=
  match r with
  | ResponseOk head _ _ _ => head
  | ResponseError head _ => head
  end.

(** [request] is [requests[prResponse.head]], which is [undefined] when no
    request has that head. *)
Record TSubmittedPR := mkSubmittedPR {
  request : option TSubmittedPRRequest;
  response : TSubmittedPRResponse;
}.

Record Params := mkParams {
  repoOwner : string;
  repoName : string;
  mergeWhenReady : bool;
  trunkBranchName : string;
  prs : list TSubmittedPRRequest;
}.

(** The transport part of a server response; of [body] the code tests
    truthiness only. *)
Record HttpResponse := mkHttp {
  status : Z;
  body_truthy : bool;
  headers : gmap string string;
}.

Record ServerResponse := mkServerResponse {
  _response : HttpResponse;
  response_prs : list TSubmittedPRResponse;
}.

(** A value produced by [JSON.parse]; an object maps its own keys to their
    values. *)
#[warnings="-register-all"]
Inductive JSON :=
| JNull
| JBool (b : bool)
| JNumber (literal : string)
| JString (s : string)
| JArray (items : list JSON)
| JObject (fields : gmap string JSON).

Inductive Style := red | green | yellow | blueBright | reset.

Inductive Output :=
| LogInfo (message : string)
| LogWarn (message : string)
| LogError (message : string)
| LogNewline
| ConsoleLog (submissionInfo : list TSubmittedPRRequest)
| SplogInfo (message : string)
| Prompt (message : string) (choices : list (string * string)).

(** Modelled from the spec: the meta store is outside the sources; it keeps,
    per branch name, the PR info and the parent name.  [api_calls] are the
    submit requests sent to the server, oldest first. *)
Record World := mkWorld {
  prInfos : gmap string PRInfo;
  parents : gmap string string;
  output : list Output;
  api_calls : list Params;
}.

Inductive TScope := UPSTACK | DOWNSTACK | FULLSTACK.
Inductive TSubmitScope := BRANCH | Scope (scope : TScope).

Record Stack := mkStack { branches : list Branch }.

Inductive PromptResult := Selected (value : string) | Cancelled.

(** What the two files import and do not define: the execution state, the
    Git adapter's emptiness test, the stack builder and validator, PR sync,
    the user at the prompt, the server behind [requestWithArgs], the
    configuration getters and the string helpers. *)
Class Env := {
  interactive : bool;
  isEmptyBranch : string → string → bool;
  isTrunk : Branch → bool;
  currentBranchPrecondition : M World Branch;
  upstackInclusiveFromBranchWithParents : Branch → M World Stack;
  downstackFromBranch : Branch → M World Stack;
  fullStackFromBranch : Branch → M World Stack;
  validateStack : TScope → Stack → M World unit;
  syncPRInfoForBranches : list Branch → M World unit;
  prompts_answer : list (string * string) → World → PromptResult;
  server : Params → ServerResponse;
  getAppServerUrl : string;
  getRepoOwner : string;
  getRepoName : string;
  cuteString : ServerResponse → string;
  JSON_parse : string → option JSON;
  String_of : JSON → string;
  chalk : Style → string → string;
}.

Section Code.
Context `{!Env}.

Definition emit (o : Output) : M World unit :=
  modify (λ w,
    mkWorld (prInfos w) (parents w) (output w ++ [o]) (api_calls w)).

Definition logInfo (s : string) : M World unit := emit (LogInfo s).
Definition logWarn (s : string) : M World unit := emit (LogWarn s).
Definition logError (s : string) : M World unit := emit (LogError s).
Definition logNewline : M World unit := emit LogNewline.

(** [l.filter(p)] with a callback that reads the world and may throw; the
    callback runs on every element, in order. *)
Fixpoint filterM {A} (p : A → M World bool) (l : list A) : M World (list A) :=
  match l with
  | [] => ret []
  | x :: l' =>
      let* keep := p x in
      let* rest := filterM p l' in
      ret (if keep then x :: rest else rest)
  end.

(** Modelled from the spec: [Branch.getPRInfo] is outside the sources; it
    reads the stored PR info of the branch, if any. *)
Definition getPRInfo (b : Branch) : M World (option PRInfo) :=
  reads (λ w, prInfos w !! name b).

(** Modelled from the spec: [Branch.getParentFromMeta] is outside the
    sources; it returns the branch named by the stored parent, or nothing. *)
Definition getParentFromMeta (b : Branch) : M World (option Branch) :=
  reads (λ w, mkBranch <$> parents w !! name b).

(** Modelled from the spec: [engine.upsertPrInfo] is outside the sources; it
    merges the patch into the stored record, key by key. *)
Definition merge_prInfo (old patch : PRInfo) : PRInfo :=
  let pick {A} (f : PRInfo → option A) :=
    match f patch with Some x => Some x | None => f old end in
  mkPRInfo (pick pr_number) (pick pr_url) (pick pr_base) (pick pr_state)
    (pick pr_title) (pick pr_body) (pick pr_reviewDecision) (pick pr_draft).

Definition empty_prInfo : PRInfo :=
  mkPRInfo None None None None None None None None.

(** Modelled from the spec: see [merge_prInfo]. *)
Definition upsertPrInfo (head : string) (patch : PRInfo) : M World unit :=
  modify (λ w,
    mkWorld (<[head := merge_prInfo (default empty_prInfo (prInfos w !! head))
                         patch]> (prInfos w))
      (parents w) (output w) (api_calls w)).

(** *** [validate_branches.ts] *)

Definition getStack (currentBranch : Branch) (scope : TScope) : M World Stack :=
  match scope with
  | UPSTACK => upstackInclusiveFromBranchWithParents currentBranch
  | DOWNSTACK => downstackFromBranch currentBranch
  | FULLSTACK => fullStackFromBranch currentBranch
  end.

Definition getAllBranchesToSubmit (scope : TSubmitScope)
  : M World (list Branch) :=
  match scope with
  | BRANCH =>
      let* currentBranch := currentBranchPrecondition in
      ret [currentBranch]
  | Scope scope =>
      try_catch_rethrow
        (let* currentBranch := currentBranchPrecondition in
         let* stack := getStack currentBranch scope in
         validateStack scope stack ;;;
         logNewline ;;;
         ret (filter (λ b, isTrunk b = false) (branches stack)))
        (ValidationFailedError "Validation failed. Will not submit.")
  end.

Definition has_state (s : PRState) (b : Branch) : M World bool :=
  let* info := getPRInfo b in
  ret (bool_decide (info ≫= pr_state = Some s)).

Definition bullet (b : Branch) : string := "▸ " +:+ chalk reset (name b).

Definition msg_merged_head (hasMultipleBranches : bool) : string :=
  "PR" +:+ (if hasMultipleBranches then "s" else EmptyString) +:+
  " for the following branch" +:+
  (if hasMultipleBranches then "es have" else " has") +:+
  " already been merged:".

Definition msg_merged_hint (hasMultipleBranches : bool) : string :=
  "If this is expected, you can use 'gt repo sync' to delete " +:+
  (if hasMultipleBranches then "these branches" else "this branch") +:+
  " locally and restack dependencies.".

Definition msg_closed_head (hasMultipleBranches : bool) : string :=
  "PR" +:+ (if hasMultipleBranches then "s" else EmptyString) +:+
  " for the following branch" +:+
  (if hasMultipleBranches then "es have" else " has") +:+
  " been closed:".

Definition msg_closed_hint (hasMultipleBranches : bool) : string :=
  "To submit " +:+
  (if hasMultipleBranches then "these branches" else "this branch") +:+
  ", please reopen the PR remotely.".

Definition hasAnyMergedBranches (branchesToSubmit : list Branch)
  : M World bool :=
  let* mergedBranches := filterM (has_state MERGED) branchesToSubmit in
  if bool_decide (length mergedBranches = 0) then ret false
  else
    let hasMultipleBranches := bool_decide (1 < length mergedBranches) in
    logError (msg_merged_head hasMultipleBranches) ;;;
    for_of mergedBranches (λ b, logError (bullet b)) ;;;
    logError (msg_merged_hint hasMultipleBranches) ;;;
    ret true.

Definition hasAnyClosedBranches (branchesToSubmit : list Branch)
  : M World bool :=
  let* closedBranches := filterM (has_state CLOSED) branchesToSubmit in
  if bool_decide (length closedBranches = 0) then ret false
  else
    let hasMultipleBranches := bool_decide (1 < length closedBranches) in
    logError (msg_closed_head hasMultipleBranches) ;;;
    for_of closedBranches (λ b, logError (bullet b)) ;;;
    logError (msg_closed_hint hasMultipleBranches) ;;;
    ret true.

Definition msg_no_parent (b : string) : string :=
  "Could not find parent for branch " +:+ b +:+
  " to submit PR against. Please checkout " +:+ b +:+
  " and run `gt upstack onto <parent_branch>` to set its parent.".

Definition getBranchBaseName (branch : Branch) : M World string :=
  let* parent := getParentFromMeta branch in
  match parent with
  | None => throw (PreconditionsFailedError (msg_no_parent (name branch)))
  | Some parent => ret (name parent)
  end.

Definition msg_empty_head (hasMultipleBranches : bool) : string :=
  "The following branch" +:+
  (if hasMultipleBranches then "es have" else " has") +:+ " no changes:".

Definition msg_empty_question (hasMultipleBranches : bool) : string :=
  "Are you sure you want to submit " +:+
  (if hasMultipleBranches then "them" else "it") +:+ "?".

Definition empty_choices (hasMultipleBranches : bool)
  : list (string * string) :=
  [ ("Abort command and keep working on " +:+
       (if hasMultipleBranches then "these branches" else "this branch"),
     "fix_manually");
    ("Continue with empty branch" +:+
       (if hasMultipleBranches then "es" else EmptyString),
     "continue_empty") ].

(** [prompts(question, { onCancel })]: the question is shown, and the user
    selects a value or cancels, in which case [onCancel] throws. *)
Definition prompts (message : string) (choices : list (string * string))
  : M World string :=
  emit (Prompt message choices) ;;;
  let* answer := reads (prompts_answer choices) in
  match answer with
  | Selected value => ret value
  | Cancelled => throw KilledError
  end.

Definition checkForEmptyBranches (submittableBranches : list Branch)
  : M World (list Branch) :=
  let* emptyBranches :=
    filterM (λ branch,
      let* baseName := getBranchBaseName branch in
      ret (isEmptyBranch (name branch) baseName)) submittableBranches in
  if bool_decide (length emptyBranches = 0) then ret submittableBranches
  else
    let hasMultipleBranches := bool_decide (1 < length emptyBranches) in
    logWarn (msg_empty_head hasMultipleBranches) ;;;
    for_of emptyBranches (λ b, logWarn (bullet b)) ;;;
    logWarn (msg_empty_question hasMultipleBranches) ;;;
    logNewline ;;;
    if negb interactive then ret []
    else
      let* empty_branches_options :=
        prompts "How would you like to proceed?"
          (empty_choices hasMultipleBranches) in
      logNewline ;;;
      ret (if bool_decide (empty_branches_options = "continue_empty")
           then submittableBranches else []).

Definition msg_step1 : string :=
  "✏️  [Step 1] Validating that this Graphite stack is ready to submit...".

Definition getValidBranchesToSubmit (scope : TSubmitScope)
  : M World (list Branch) :=
  logInfo (chalk blueBright msg_step1) ;;;
  let* branchesToSubmit := getAllBranchesToSubmit scope in
  syncPRInfoForBranches branchesToSubmit ;;;
  let* merged := hasAnyMergedBranches branchesToSubmit in
  if merged then ret []
  else
    let* closed := hasAnyClosedBranches branchesToSubmit in
    if closed then ret [] else checkForEmptyBranches branchesToSubmit.

(** *** [submit_prs.ts] *)

Definition SUCCESS_RESPONSE_CODE : Z := 200.
Definition UNAUTHORIZED_RESPONSE_CODE : Z := 401.

(** [x?.key] on a parsed value: [None] is [undefined]; only an object has
    one of the keys read here. *)
Definition get_prop (key : string) (v : option JSON) : option JSON :=
  match v with
  | Some (JObject fields) => fields !! key
  | _ => None
  end.

(** The [try] returns the message found, unless that is [null] or
    [undefined]; the [catch] returns the error string when [JSON.parse]
    throws ([JSON_parse] gives [None]). *)
Definition parseSubmitError (error : string) : JSON :=
  match JSON_parse error with
  | None => JString error
  | Some v =>
      match get_prop "message"
              (get_prop "data" (get_prop "response" (Some v))) with
      | None | Some JNull => JString error
      | Some message => message
      end
  end.

(** A value inside a template literal. *)
Definition template (v : JSON) : string :=
  match v with
  | JString s => s
  | _ => String_of v
  end.

Definition requestWithArgs (params : Params) : M World ServerResponse :=
  modify (λ w, mkWorld (prInfos w) (parents w) (output w)
                 (api_calls w ++ [params])) ;;;
  ret (server params).

Definition msg_auth_expired : string :=
  "Your Graphite auth token is invalid/expired." +:+ nl +:+ nl +:+
  "Please obtain a new auth token by visiting " +:+ getAppServerUrl +:+
  "/activate".

Definition formattedHeaders (headers : gmap string string) : string :=
  let debugHeaders :=
    [("x-graphite-request-id", headers !! "x-graphite-request-id")] in
  String.concat nl
    ((λ kv : string * option string,
        "  " +:+ kv.1 +:+ ": " +:+ default "<empty>" (truthy_string kv.2))
       <$> debugHeaders).

Definition msg_unexpected (response : ServerResponse) : string :=
  "Unexpected server response (" +:+ pretty (status (_response response)) +:+
  ")." +:+ nl +:+ nl +:+ "Headers:" +:+ nl +:+
  formattedHeaders (headers (_response response)) +:+ nl +:+ nl +:+
  "Response: " +:+ cuteString response.

(** The object [requests], filled by the [forEach]: a later request
    replaces an earlier one with the same head.  Heads are taken to differ
    from the property names every object inherits. *)
Definition requests_by_head (submissionInfo : list TSubmittedPRRequest)
  : gmap string TSubmittedPRRequest :=
  foldl (λ requests prRequest, <[req_head prRequest := prRequest]> requests)
    ∅ submissionInfo.

Definition requestServerToSubmitPRs (submissionInfo : list TSubmittedPRRequest)
    (mergeWhenReady : bool) (trunkBranchName : string)
  : M World (list TSubmittedPR) :=
  emit (ConsoleLog submissionInfo) ;;;
  let* response :=
    requestWithArgs
      (mkParams getRepoOwner getRepoName mergeWhenReady trunkBranchName
         submissionInfo) in
  if bool_decide (status (_response response) = SUCCESS_RESPONSE_CODE)
     && body_truthy (_response response)
  then
    let requests := requests_by_head submissionInfo in
    ret ((λ prResponse,
            mkSubmittedPR (requests !! resp_head prResponse) prResponse)
           <$> response_prs response)
  else if bool_decide (status (_response response) = UNAUTHORIZED_RESPONSE_CODE)
  then throw (PreconditionsFailedError msg_auth_expired)
  else throw (ExitFailedError (msg_unexpected response)).

Definition msg_submit_failed (head : string) (error : string) : string :=
  "Failed to submit PR for " +:+ head +:+ ": " +:+
  template (parseSubmitError error).

Definition submitted_patch (request : TSubmittedPRRequest) (prNumber : Z)
    (prURL : string) : PRInfo :=
  mkPRInfo (Some prNumber) (Some prURL) (Some (req_base request)) (Some OPEN)
    (match req_action request with
     | create => req_title request
     | update => None
     end)
    (match req_action request with
     | create => req_body request
     | update => None
     end)
    (match req_action request with
     | create => Some REVIEW_REQUIRED
     | update => None
     end)
    (req_draft request).

Definition status_text (status : SuccessStatus) : string :=
  match status with
  | updated => chalk yellow "updated"
  | created => chalk green "created"
  end.

(** [pr] is element [0] of the array the request returns; reading a property
    of [undefined] ([pr] itself when the array is empty, [pr.request] when no
    request has the response's head) throws a [TypeError]. *)
Definition submitPullRequest (submissionInfo : list TSubmittedPRRequest)
    (mergeWhenReady : bool) (trunkBranchName : string) (cliAuthToken : string)
  : M World unit :=
  let* submitted :=
    requestServerToSubmitPRs submissionInfo mergeWhenReady trunkBranchName in
  match submitted !! 0%nat with
  | None => throw TypeError
  | Some pr =>
      match response pr with
      | ResponseError head error =>
          throw (ExitFailedError (msg_submit_failed head error))
      | ResponseOk head status prNumber prURL =>
          match request pr with
          | None => throw TypeError
          | Some request =>
              upsertPrInfo head (submitted_patch request prNumber prURL) ;;;
              emit (SplogInfo (chalk green head +:+ ": " +:+ prURL +:+ " (" +:+
                               status_text status +:+ ")"))
          end
      end
  end.

(** *** Notions used to state what a run printed and decided *)

(** The world after more lines of output. *)
Definition say (w : World) (lines : list Output) : World :=
  mkWorld (prInfos w) (parents w) (output w ++ lines) (api_calls w).

(** The branches whose stored PR is in state [s]. *)
Definition with_state (w : World) (s : PRState) (bs : list Branch)
  : list Branch :=
  filter (λ b, prInfos w !! name b ≫= pr_state = Some s) bs.

Definition merged_lines (merged : list Branch) : list Output :=
  let hasMultipleBranches := bool_decide (1 < length merged) in
  [LogError (msg_merged_head hasMultipleBranches)] ++
  (LogError ∘ bullet <$> merged) ++
  [LogError (msg_merged_hint hasMultipleBranches)].

Definition closed_lines (closed : list Branch) : list Output :=
  let hasMultipleBranches := bool_decide (1 < length closed) in
  [LogError (msg_closed_head hasMultipleBranches)] ++
  (LogError ∘ bullet <$> closed) ++
  [LogError (msg_closed_hint hasMultipleBranches)].

(** The branches whose diff against their stored parent is empty. *)
Definition branch_is_empty (w : World) (b : Branch) : bool :=
  match parents w !! name b with
  | Some p => isEmptyBranch (name b) p
  | None => false
  end.

Definition empty_branches (w : World) (bs : list Branch) : list Branch :=
  filter (λ b, branch_is_empty w b = true) bs.

Definition empty_lines (empties : list Branch) : list Output :=
  let hasMultipleBranches := bool_decide (1 < length empties) in
  [LogWarn (msg_empty_head hasMultipleBranches)] ++
  (LogWarn ∘ bullet <$> empties) ++
  [LogWarn (msg_empty_question hasMultipleBranches); LogNewline].

(** The question put to the user about [empties], and the world in which
    the answer is read. *)
Definition empty_prompt (empties : list Branch) : Output :=
  Prompt "How would you like to proceed?"
    (empty_choices (bool_decide (1 < length empties))).

Definition empty_answer (w : World) (empties : list Branch) : PromptResult :=
  prompts_answer (empty_choices (bool_decide (1 < length empties)))
    (say (say w (empty_lines empties)) [empty_prompt empties]).

(** The world after a submit request has been sent. *)
Definition requested (submissionInfo : list TSubmittedPRRequest)
    (params : Params) (w : World) : World :=
  mkWorld (prInfos w) (parents w) (output w ++ [ConsoleLog submissionInfo])
    (api_calls w ++ [params]).

End Code.
End Submit.

(** ** A small repository and a small review host

    Concrete collaborators on which the code is run: the stack
    [main → A → B → C] with a branch [feature] beside [main], a Git in which
    the commands listed in [failing] stop with a conflict, and a server that
    answers every submit with a fixed response. *)
Module Toy.

Record Repo := mkRepo {
  tips : gmap string string;
  head : option string;
  rebasing : bool;
  dirty : bool;
}.

(** A rebase that succeeds moves the tip of the checked-out branch; one that
    conflicts leaves a rebase in progress. *)
Definition exec (failing : list string) (command : string) (g : Repo)
  : bool * Repo :=
  if bool_decide (command ∈ failing)
  then (false, mkRepo (tips g) (head g) true (dirty g))
  else (true,
        match head g with
        | Some b => mkRepo (alter (λ t, t +:+ "'") b (tips g)) (head g)
                      (rebasing g) (dirty g)
        | None => g
        end).

Definition host (failing : list string) (valid : bool) : Restack.Host Repo := {|
  Restack.git_rebaseInProgress := rebasing;
  Restack.git_uncommittedChanges := dirty;
  Restack.git_checkout b g :=
    (Returned tt, mkRepo (tips g) (Some b) (rebasing g) (dirty g));
  Restack.git_exec := exec failing;
  Restack.git_currentBranch g := mkBranch <$> head g;
  Restack.git_revParse b g := default "0" (tips g !! b);
  Restack.git_mergeBase _ b g := tips g !! b;
  Restack.validate_ok _ _ := valid;
  Restack.in_trunkBranches n := bool_decide (n = "main");
  Restack.CURRENT_REPO_CONFIG_PATH := ".graphite_repo_config";
  Restack.logErrorAndExit_code := 1;
  Restack.chalk_red s := s;
|}.

Definition repo (on : string) (dirty : bool) : Repo :=
  mkRepo (list_to_map [("main", "m1"); ("feature", "f1"); ("A", "a1");
                       ("B", "b1"); ("C", "c1")])
    (Some on) false dirty.

Definition stack_meta : Restack.Meta :=
  Restack.mkMeta (list_to_map [("A", "main"); ("B", "A"); ("C", "B")]) ∅
    ["main"; "feature"; "A"; "B"; "C"].

Definition world (on : string) (dirty : bool) : Restack.World Repo :=
  Restack.mkWorld (repo on dirty) stack_meta [] [].

Definition args (onto : option string) : Restack.argsT :=
  Restack.mkArgs false onto.

(** The submit side. *)
Definition request (action : Submit.Action) (head base : string)
  : Submit.TSubmittedPRRequest :=
  Submit.mkRequest action head base (Some ("Title of " +:+ head)) (Some "Body")
    None.

Definition http (status : Z) : Submit.HttpResponse :=
  Submit.mkHttp status true (<["x-graphite-request-id" := "req-42"]> ∅).

Definition reply (status : Z) (prs : list Submit.TSubmittedPRResponse)
  : Submit.ServerResponse :=
  Submit.mkServerResponse (http status) prs.

Definition envelope : Submit.JSON :=
  Submit.JObject {[ "response" :=
    Submit.JObject {[ "data" :=
      Submit.JObject {[ "message" := Submit.JString "Validation Failed" ]} ]} ]}.

Definition env (interactive : bool) (answer : Submit.PromptResult)
    (reply : Submit.ServerResponse) : Submit.Env := {|
  Submit.interactive := interactive;
  Submit.isEmptyBranch b _ := bool_decide (b = "B");
  Submit.isTrunk b := bool_decide (name b = "main");
  Submit.currentBranchPrecondition := ret (mkBranch "B");
  Submit.upstackInclusiveFromBranchWithParents _ :=
    ret (Submit.mkStack (mkBranch <$> ["main"; "A"; "B"; "C"]));
  Submit.downstackFromBranch _ :=
    ret (Submit.mkStack (mkBranch <$> ["main"; "A"; "B"]));
  Submit.fullStackFromBranch _ :=
    ret (Submit.mkStack (mkBranch <$> ["main"; "A"; "B"; "C"]));
  Submit.validateStack _ _ := ret tt;
  Submit.syncPRInfoForBranches _ := ret tt;
  Submit.prompts_answer _ _ := answer;
  Submit.server _ := reply;
  Submit.getAppServerUrl := "https://app.graphite.dev";
  Submit.getRepoOwner := "mx1ao";
  Submit.getRepoName := "graphite-cli";
  Submit.cuteString _ := "{}";
  Submit.JSON_parse s :=
    if bool_decide (s = "{...}") then Some envelope else None;
  Submit.String_of _ := "[object Object]";
  Submit.chalk _ s := s;
|}.

Definition info (state : Submit.PRState) (base : string) : Submit.PRInfo :=
  Submit.mkPRInfo (Some 7%Z) (Some "https://host/pr/7") (Some base)
    (Some state) None None None None.

Definition submit_world (infos : gmap string Submit.PRInfo) : Submit.World :=
  Submit.mkWorld infos
    (list_to_map [("A", "main"); ("B", "A"); ("C", "B")]) [] [].

(** A repository with no branch checked out, and a meta in which [A] and
    [B] are each other's parent. *)
Definition detached_world : Restack.World Toy.Repo :=
  Restack.mkWorld
    (Toy.mkRepo (Toy.tips (Toy.repo "A" false)) None false false)
    Toy.stack_meta [] [].

Definition cyclic_world : Restack.World Toy.Repo :=
  Restack.mkWorld (Toy.repo "A" false)
    (Restack.mkMeta (list_to_map [("A", "B"); ("B", "A")]) ∅ ["A"; "B"])
    [] [].

(** A review host on which no branch is empty. *)
Definition quiet_env (reply : Submit.ServerResponse) : Submit.Env := {|
  Submit.interactive := false;
  Submit.isEmptyBranch _ _ := false;
  Submit.isTrunk b := bool_decide (name b = "main");
  Submit.currentBranchPrecondition := ret (mkBranch "B");
  Submit.upstackInclusiveFromBranchWithParents _ :=
    ret (Submit.mkStack (mkBranch <$> ["main"; "A"; "B"; "C"]));
  Submit.downstackFromBranch _ :=
    ret (Submit.mkStack (mkBranch <$> ["main"; "A"; "B"]));
  Submit.fullStackFromBranch _ :=
    ret (Submit.mkStack (mkBranch <$> ["main"; "A"; "B"; "C"]));
  Submit.validateStack _ _ := ret tt;
  Submit.syncPRInfoForBranches _ := ret tt;
  Submit.prompts_answer _ _ := Submit.Cancelled;
  Submit.server _ := reply;
  Submit.getAppServerUrl := "https://app.graphite.dev";
  Submit.getRepoOwner := "mx1ao";
  Submit.getRepoName := "graphite-cli";
  Submit.cuteString _ := "{}";
  Submit.JSON_parse _ := None;
  Submit.String_of _ := "[object Object]";
  Submit.chalk _ s := s;
|}.

End Toy.

(** * Properties *)

(** ** The effect monad *)

Lemma for_of_cons {W A} (x : A) (l : list A) (body : A → M W unit) (w : W) :
  for_of (x :: l) body w = bind (body x) (λ _, for_of l body) w.
Proof. reflexivity. Qed.

Lemma bind_returned {W A B} (m : M W A) (k : A → M W B) w a w' :
  m w = (Returned a, w') → bind m k w = k a w'.
Proof. intros E. unfold bind. now rewrite E. Qed.

Lemma bind_returned_inv {W A B} (m : M W A) (k : A → M W B) w b w' :
  bind m k w = (Returned b, w') →
  ∃ a w1, m w = (Returned a, w1) ∧ k a w1 = (Returned b, w').
Proof.
  unfold bind. destruct (m w) as [[a| | |] w1]; intros E; try discriminate E.
  eauto.
Qed.

Lemma for_of_returned_inv {W A} (x : A) (l : list A) (body : A → M W unit)
    w w' :
  for_of (x :: l) body w = (Returned tt, w') →
  ∃ w1, body x w = (Returned tt, w1) ∧ for_of l body w1 = (Returned tt, w').
Proof.
  rewrite for_of_cons. intros E.
  apply bind_returned_inv in E as ([] & w1 & E1 & E2). eauto.
Qed.

Lemma for_of_preserves {W A} (R : W → W → Prop) (body : A → M W unit)
    (l : list A) :
  (∀ w, R w w) →
  (∀ w1 w2 w3, R w1 w2 → R w2 w3 → R w1 w3) →
  (∀ x w r w', body x w = (r, w') → R w w') →
  ∀ w r w', for_of l body w = (r, w') → R w w'.
Proof.
  intros Hrefl Htrans Hbody. induction l as [|x l IH]; intros w r w' Hrun.
  - injection Hrun as _ <-. apply Hrefl.
  - rewrite for_of_cons in Hrun. unfold bind in Hrun.
    destruct (body x w) as [o w1] eqn:Hx. apply Hbody in Hx.
    destruct o; try (injection Hrun as _ <-; exact Hx).
    eapply Htrans; [exact Hx|]. eapply IH. exact Hrun.
Qed.

(** ** Restack *)

Section RestackFacts.
Import Restack.
Context {G : Type} `{!Host G}.

#[local] Arguments cmd_rebase : simpl never.
#[local] Arguments cmd_rebase_onto : simpl never.
#[local] Arguments msg_rebase_in_progress : simpl never.
#[local] Arguments msg_no_parent : simpl never.
#[local] Arguments msg_no_merge_base : simpl never.
#[local] Arguments msg_no_parent_onto : simpl never.
#[local] Arguments msg_trunk : simpl never.
#[local] Arguments msg_validate : simpl never.

(** *** The branches a traversal visits *)

Lemma subtree_S ch fuel b :
  subtree ch (S fuel) b
  = (l ← mapM (subtree ch fuel) (ch b); Some (b :: concat l)).
Proof. reflexivity. Qed.

Lemma mapM_subtree_mono ch fuel fuel' bs ls :
  (∀ b l, subtree ch fuel b = Some l → subtree ch fuel' b = Some l) →
  mapM (subtree ch fuel) bs = Some ls → mapM (subtree ch fuel') bs = Some ls.
Proof.
  intros Hstep Hm. apply mapM_Some. apply mapM_Some in Hm.
  eapply Forall2_impl; [exact Hm|]. intros x y. apply Hstep.
Qed.

Lemma subtree_mono ch fuel fuel' b l :
  subtree ch fuel b = Some l → fuel ≤ fuel' → subtree ch fuel' b = Some l.
Proof.
  revert fuel' b l.
  induction fuel as [|f IH]; intros fuel' b l Hs Hle; [discriminate|].
  destruct fuel' as [|f']; [lia|].
  rewrite subtree_S in *.
  destruct (mapM (subtree ch f) (ch b)) as [ls|] eqn:Hm; [|discriminate].
  rewrite (mapM_subtree_mono ch f f' _ ls); [exact Hs| |exact Hm].
  intros c lc Hc. apply IH; [exact Hc|lia].
Qed.

Lemma length_concat_elem {A} (l : list A) (ls : list (list A)) :
  l ∈ ls → length l ≤ length (concat ls).
Proof.
  induction 1 as [l ls|l l' ls _ IH]; simpl; rewrite length_app; lia.
Qed.

Lemma elem_of_concat {A} (x : A) (ls : list (list A)) :
  x ∈ concat ls → ∃ l, x ∈ l ∧ l ∈ ls.
Proof.
  induction ls as [|l ls IH]; simpl; [now rewrite elem_of_nil|].
  rewrite elem_of_app. intros [Hx|Hx].
  - exists l. split; [exact Hx|]. apply list_elem_of_here.
  - destruct (IH Hx) as (l' & Hl' & Hin). exists l'.
    split; [exact Hl'|]. now apply list_elem_of_further.
Qed.

Lemma mapM_subtree_elem ch fuel bs ls lc :
  mapM (subtree ch fuel) bs = Some ls → lc ∈ ls →
  ∃ c, c ∈ bs ∧ subtree ch fuel c = Some lc.
Proof.
  intros Hm Hlc. apply mapM_Some in Hm.
  apply list_elem_of_lookup in Hlc as [i Hi].
  destruct (Forall2_lookup_r _ _ _ _ _ Hm Hi) as (c & Hc & Hsc).
  exists c. split; [|exact Hsc]. apply list_elem_of_lookup. eauto.
Qed.

Lemma subtree_inner ch fuel b l x :
  subtree ch fuel b = Some l → x ∈ l →
  ∃ fuel' lx,
    fuel' ≤ fuel ∧ subtree ch fuel' x = Some lx ∧ length lx ≤ length l.
Proof.
  revert b l x.
  induction fuel as [|f IH]; intros b l x Hs Hx; [discriminate|].
  pose proof Hs as Hs0. rewrite subtree_S in Hs.
  destruct (mapM (subtree ch f) (ch b)) as [ls|] eqn:Hm; [|discriminate].
  simpl in Hs. injection Hs as <-.
  apply elem_of_cons in Hx as [->|Hx].
  - exists (S f), (b :: concat ls). split; [lia|]. split; [exact Hs0|lia].
  - apply elem_of_concat in Hx as (lc & Hxlc & Hlc).
    destruct (mapM_subtree_elem _ _ _ _ _ Hm Hlc) as (c & _ & Hsc).
    destruct (IH c lc x Hsc Hxlc) as (f' & lx & Hle & Hlx & Hlen).
    exists f', lx. split; [lia|]. split; [exact Hlx|].
    pose proof (length_concat_elem _ _ Hlc). simpl. lia.
Qed.

(** A traversal that ends never comes back to the branch it started below. *)
Lemma subtree_acyclic ch fuel C ls :
  mapM (subtree ch fuel) (ch C) = Some ls → C ∉ concat ls.
Proof.
  intros Hm Hin.
  apply elem_of_concat in Hin as (lc & HC & Hlc).
  destruct (mapM_subtree_elem _ _ _ _ _ Hm Hlc) as (c & _ & Hsc).
  destruct (subtree_inner _ _ _ _ _ Hsc HC) as (f' & lC & Hle & HlC & Hlen).
  destruct f' as [|f'']; [discriminate|].
  rewrite subtree_S in HlC.
  destruct (mapM (subtree ch f'') (ch C)) as [ls'|] eqn:Hm'; [|discriminate].
  simpl in HlC. injection HlC as <-.
  assert (mapM (subtree ch fuel) (ch C) = Some ls') as Hm''.
  { eapply mapM_subtree_mono; [|exact Hm'].
    intros b l Hb. eapply subtree_mono; [exact Hb|lia]. }
  rewrite Hm in Hm''. injection Hm'' as <-.
  pose proof (length_concat_elem _ _ Hlc). simpl in Hlen. lia.
Qed.

Lemma child_names_ext (m m' : Meta) :
  parents m' = parents m → tracked m' = tracked m →
  child_names m' = child_names m.
Proof. intros Hp Ht. unfold child_names. now rewrite Hp, Ht. Qed.

Lemma names_children_of (m : Meta) (n : string) :
  name <$> children_of m n = child_names m n.
Proof.
  unfold children_of.
  induction (child_names m n) as [|x l IH]; simpl; [done|]. now f_equal.
Qed.


Lemma restacked_app_l c p pre events :
  restacked c p events → restacked c p (pre ++ events).
Proof.
  intros (pre' & tip & mb & post & ->).
  exists (pre ++ pre'), tip, mb, post. now rewrite <- app_assoc.
Qed.

Lemma restack_loop_returned (fuel : nat) (opts : argsT) :
  (∀ b w w', restackBranch fuel b opts w = (Returned tt, w') →
             visited fuel b w w') →
  ∀ cs w w',
    for_of cs (λ c, restackBranch fuel c opts) w = (Returned tt, w') →
    visited_all fuel cs w w'.
Proof.
  intros Hbody cs. induction cs as [|c cs IH]; intros w w' Hrun.
  - injection Hrun as <-. repeat split.
    exists [], []. simpl. rewrite app_nil_r. repeat split; try done.
    intros c p Hc. now apply elem_of_nil in Hc.
  - apply for_of_returned_inv in Hrun as (w1 & Hc & Hrest).
    apply Hbody in Hc
      as (Hp1 & Ht1 & l & p & tip & mb & rest & Hl & Hfr1 & Hpc & Htr1).
    apply IH in Hrest as (Hp2 & Ht2 & ls & events & Hls & Hfr2 & Htr2 & Hall).
    rewrite (child_names_ext _ _ Hp1 Ht1) in Hls.
    split; [congruence|]. split; [congruence|].
    exists (l :: ls),
      ([SetPrevRef (name c) tip; Checkout (name c);
        Exec (cmd_rebase p mb (name c))] ++ rest ++ events).
    split; [|split; [|split]].
    + apply mapM_Some. rewrite fmap_cons.
      constructor; [exact Hl|]. now apply mapM_Some.
    + intros x Hx. simpl in Hx. rewrite elem_of_app in Hx.
      rewrite Hfr2, Hfr1; tauto.
    + rewrite Htr2, Htr1. now rewrite <- !app_assoc.
    + intros c' p' Hc' Hp'. apply elem_of_cons in Hc' as [->|Hc'].
      * assert (p' = p) as -> by congruence.
        exists [], tip, mb, (rest ++ events). reflexivity.
      * rewrite <- Hp1 in Hp'. specialize (Hall c' p' Hc' Hp').
        rewrite app_assoc. now apply restacked_app_l.
Qed.

Lemma restackBranch_returned (fuel : nat) (opts : argsT) :
  ∀ (b : Branch) (w w' : World G),
    restackBranch fuel b opts w = (Returned tt, w') → visited fuel b w w'.
Proof.
  induction fuel as [|f IH]; intros b w w' Hrun; [discriminate|].
  simpl in Hrun.
  unfold bind, rebaseInProgress, getParentFromMeta, getMetaMergeBase, reads
    in Hrun. simpl in Hrun.
  destruct (git_rebaseInProgress (git w)); [discriminate|]. simpl in Hrun.
  destruct (parents (meta w) !! name b) as [p|] eqn:Hp; [|discriminate].
  simpl in Hrun.
  destruct (truthy_string (metaMergeBase (name b) w)) as [mb|]; [|discriminate].
  unfold checkoutBranch, execSync in Hrun. simpl in Hrun.
  destruct (git_checkout (name b) (git w)) as [[[]| | |] g1]; try discriminate.
  simpl in Hrun.
  destruct (git_exec (cmd_rebase p mb (name b)) g1) as [[] g2];
    [|discriminate].
  apply (restack_loop_returned f opts IH) in Hrun
    as (Hp' & Ht' & ls & events & Hls & Hfr & Htr & _).
  simpl in *. rewrite names_children_of in Hls.
  assert (∀ pr, child_names (mkMeta (parents (meta w)) pr (tracked (meta w)))
                = child_names (meta w)) as E
    by (intros; now apply child_names_ext).
  rewrite !E in Hls.
  split; [exact Hp'|]. split; [exact Ht'|].
  exists (name b :: concat ls), p, (git_revParse (name b) (git w)), mb, events.
  split; [|split; [|split]].
  - rewrite subtree_S. now rewrite Hls.
  - intros x Hx. apply not_elem_of_cons in Hx as [Hne Hx].
    rewrite (Hfr x Hx). now apply lookup_insert_ne.
  - exact Hp.
  - rewrite Htr. now rewrite <- !app_assoc.
Qed.



(** *** What every run preserves *)

Lemma extends_refl (w : World G) : extends w w.
Proof. repeat split. exists []. now rewrite app_nil_r. Qed.

Lemma extends_trans (w1 w2 w3 : World G) :
  extends w1 w2 → extends w2 w3 → extends w1 w3.
Proof.
  intros (Hp1 & Ht1 & e1 & He1) (Hp2 & Ht2 & e2 & He2).
  split; [congruence|]. split; [congruence|].
  exists (e1 ++ e2). rewrite He2, He1. now rewrite app_assoc.
Qed.

Lemma restackBranch_extends (fuel : nat) (opts : argsT) :
  ∀ (b : Branch) (w : World G) r w',
    restackBranch fuel b opts w = (r, w') → extends w w'.
Proof.
  induction fuel as [|f IH]; intros b w r w' Hrun.
  { injection Hrun as _ <-. apply extends_refl. }
  simpl in Hrun.
  unfold bind, rebaseInProgress, getParentFromMeta, getMetaMergeBase, reads
    in Hrun. simpl in Hrun.
  destruct (git_rebaseInProgress (git w)).
  { injection Hrun as _ <-. repeat split. exists []. simpl.
    now rewrite app_nil_r. }
  simpl in Hrun. destruct (parents (meta w) !! name b) as [p|] eqn:Hp.
  2:{ injection Hrun as _ <-. repeat split. exists []. simpl.
      now rewrite app_nil_r. }
  simpl in Hrun.
  destruct (truthy_string (metaMergeBase (name b) w)) as [mb|].
  2:{ injection Hrun as _ <-. repeat split. exists []. simpl.
      now rewrite app_nil_r. }
  unfold checkoutBranch, execSync in Hrun. simpl in Hrun.
  destruct (git_checkout (name b) (git w)) as [[[]| | |] g1];
    try (injection Hrun as _ <-; repeat split; eexists; simpl;
         rewrite <- !app_assoc; reflexivity).
  simpl in Hrun.
  destruct (git_exec (cmd_rebase p mb (name b)) g1) as [[] g2].
  2:{ injection Hrun as _ <-. repeat split. eexists. simpl.
      rewrite <- !app_assoc. reflexivity. }
  apply (for_of_preserves extends _ _ extends_refl extends_trans) in Hrun.
  - destruct Hrun as (Hp' & Ht' & events & Htr). simpl in *.
    repeat split; try done. eexists. rewrite Htr.
    rewrite <- !app_assoc. reflexivity.
  - intros c w1 r1 w1'. apply IH.
Qed.

(** X9. With its three checks passed, the first things [restackBranch] does are
    the write of the previous ref and the checkout. *)
Lemma restackBranch_proceeds (fuel : nat) (b p mb : string) (opts : argsT)
    (w : World G) :
  git_rebaseInProgress (git w) = false →
  parents (meta w) !! b = Some p →
  truthy_string (metaMergeBase b w) = Some mb →
  ∃ r w' events,
    restackBranch (S fuel) (mkBranch b) opts w = (r, w') ∧
    trace w' = trace w ++ SetPrevRef b (git_revParse b (git w)) ::
                          Checkout b :: events.
Proof.
  intros Hr Hp Hm.
  destruct (restackBranch (S fuel) (mkBranch b) opts w) as [r w'] eqn:Hrun.
  exists r, w'. simpl in Hrun.
  unfold bind, rebaseInProgress, getParentFromMeta, getMetaMergeBase, reads
    in Hrun. simpl in Hrun.
  rewrite Hr in Hrun. simpl in Hrun. rewrite Hp in Hrun. simpl in Hrun.
  rewrite Hm in Hrun.
  unfold checkoutBranch, execSync in Hrun. simpl in Hrun.
  destruct (git_checkout b (git w)) as [[[]| | |] g1];
    try (injection Hrun as _ <-; exists []; split; [reflexivity|]; simpl;
         rewrite <- !app_assoc; reflexivity).
  simpl in Hrun.
  destruct (git_exec (cmd_rebase p mb b) g1) as [[] g2].
  2:{ injection Hrun as _ <-. eexists. split; [reflexivity|]. simpl.
      rewrite <- !app_assoc. reflexivity. }
  apply (for_of_preserves extends _ _ extends_refl extends_trans) in Hrun.
  - destruct Hrun as (_ & _ & events & Htr). simpl in Htr.
    eexists. split; [reflexivity|]. rewrite Htr.
    rewrite <- !app_assoc. reflexivity.
  - intros c w1 r1 w1'. apply restackBranch_extends.
Qed.

(** *** The claims *)

(** C1. When [restackBranch b] passes its checks and the rebase it launches
    exits non-zero, the run stops there with the exception of [execSync]:
    the previous ref of [b] already holds the tip [b] had on entry, the
    trace ends with that write, the checkout and the failed command, so no
    child of [b] is restacked, and a loop over [b] and later siblings stops
    in the same world. *)
Theorem restackBranch_conflict_aborts (fuel : nat) (b p mb : string)
    (opts : argsT) (w : World G) (g1 g2 : G) (later : list Branch) :
  git_rebaseInProgress (git w) = false →
  parents (meta w) !! b = Some p →
  truthy_string (metaMergeBase b w) = Some mb →
  git_checkout b (git w) = (Returned tt, g1) →
  git_exec (cmd_rebase p mb b) g1 = (false, g2) →
  let failure := (Threw (ChildProcessError (cmd_rebase p mb b)),
                  after_conflict b (cmd_rebase p mb b) g2 w) in
  restackBranch (S fuel) (mkBranch b) opts w = failure ∧
  for_of (mkBranch b :: later) (λ c, restackBranch (S fuel) c opts) w
    = failure ∧
  prevRefs (meta failure.2) !! b = Some (git_revParse b (git w)).
Proof.
  intros Hr Hp Hm Hc He failure.
  assert (restackBranch (S fuel) (mkBranch b) opts w = failure) as Hfail.
  { simpl.
    unfold bind, rebaseInProgress, getParentFromMeta, getMetaMergeBase, reads.
    simpl. rewrite Hr. simpl. rewrite Hp. simpl. rewrite Hm.
    unfold checkoutBranch, execSync. simpl. rewrite Hc. simpl. rewrite He.
    rewrite <- !app_assoc. reflexivity. }
  split; [exact Hfail|]. split.
  - rewrite for_of_cons. unfold bind at 1. now rewrite Hfail.
  - simpl. apply lookup_insert_eq.
Qed.

(** C6, as the code has it.  [restackBranch b] checks, in this order and
    before any meta write, checkout or rebase: no rebase in progress, a
    parent of [b] in meta, a merge base.  When one of them fails the process
    exits after one error line; Git, meta and the trace are as before. *)
Theorem restackBranch_requires (fuel : nat) (b : string) (opts : argsT)
    (w : World G) :
  git_rebaseInProgress (git w) = true ∨
  parents (meta w) !! b = None ∨
  truthy_string (metaMergeBase b w) = None →
  let message :=
    if git_rebaseInProgress (git w) then msg_rebase_in_progress b
    else match parents (meta w) !! b with
         | None => msg_no_parent b
         | Some _ => msg_no_merge_base b
         end in
  restackBranch (S fuel) (mkBranch b) opts w
    = (Exited logErrorAndExit_code, refused (ErrorAndExit message) w).
Proof.
  intros Hfail message. subst message. simpl.
  unfold bind, rebaseInProgress, getParentFromMeta, getMetaMergeBase, reads.
  simpl.
  destruct (git_rebaseInProgress (git w)) eqn:Hr; [reflexivity|].
  simpl. destruct (parents (meta w) !! b) as [p|] eqn:Hp; [|reflexivity].
  simpl. destruct (truthy_string (metaMergeBase b w)) as [mb|] eqn:Hm;
    [|reflexivity].
  destruct Hfail as [?|[?|?]]; discriminate.
Qed.

(** X3. The check on uncommitted changes is made once, by the command, before
    the traversal starts. *)
Lemma _execute_requires_clean_tree (fuel : nat) (argv : argsT) (w : World G) :
  git_uncommittedChanges (git w) = true →
  _execute fuel argv w
    = (Exited logErrorAndExit_code,
       refused (ErrorAndExit "Cannot restack with uncommitted changes") w).
Proof.
  intros Hd. unfold _execute, bind, uncommittedChanges, reads. simpl.
  now rewrite Hd.
Qed.


End RestackFacts.

(** ** Restack on the small repository *)

Section RestackRuns.
Import Restack.

(** Scenario: the rebase of [B] conflicts during a restack of the stack. *)
Lemma restackBranch_conflict_aborts_witness :
  let H := Toy.host ["git rebase --onto A a1 B"] true in
  let w := Toy.world "main" false in
  let g2 := Toy.mkRepo (Toy.tips (Toy.repo "B" false)) (Some "B") true false in
  let failure := (Threw (ChildProcessError "git rebase --onto A a1 B"),
                  @after_conflict _ H "B" "git rebase --onto A a1 B" g2 w) in
  @restackBranch _ H 3 (mkBranch "B") (Toy.args None) w = failure ∧
  for_of [mkBranch "B"; mkBranch "C"]
    (λ c, @restackBranch _ H 3 c (Toy.args None)) w = failure ∧
  prevRefs (meta failure.2) !! "B" = Some "b1".
Proof.
  apply (@restackBranch_conflict_aborts _
           (Toy.host ["git rebase --onto A a1 B"] true) 2 "B" "A" "a1"
           (Toy.args None) (Toy.world "main" false) (Toy.repo "B" false));
    reflexivity.
Defined.

Lemma restackBranch_requires_witness :
  let H := Toy.host [] true in
  @restackBranch _ H 1 (mkBranch "main") (Toy.args None)
    (Toy.world "main" false)
  = (Exited 1,
     refused (ErrorAndExit (msg_no_parent "main")) (Toy.world "main" false)).
Proof.
  apply (@restackBranch_requires _ (Toy.host [] true) 0 "main").
  right. left. reflexivity.
Defined.

(** C6 fails on the code: with uncommitted changes in the working tree,
    [restackBranch] does not exit; it records the previous ref of [C] and
    rebases it. *)
Lemma restackBranch_runs_on_dirty_tree :
  let H := Toy.host [] true in
  let w := Toy.world "B" true in
  let r := @restackBranch _ H 2 (mkBranch "C") (Toy.args None) w in
  @git_uncommittedChanges _ H (git w) = true ∧
  r.1 = Returned tt ∧
  prevRefs (meta w) !! "C" = None ∧
  prevRefs (meta r.2) !! "C" = Some "c1" ∧
  trace r.2 = [SetPrevRef "C" "c1"; Checkout "C";
               Exec "git rebase --onto B b1 C"].
Proof. vm_compute. repeat split. Qed.




(** Scenario: a restack from [main] in which the rebase of [B] conflicts.
    [A] has been rebased, [B] has its previous ref, [C] is untouched, and
    the command does not return to [main]. *)
Example restack_conflict_scenario :
  let H := Toy.host ["git rebase --onto A a1' B"] true in
  let r := @_execute _ H 4 (Toy.args None) (Toy.world "main" false) in
  r.1 = Threw (ChildProcessError "git rebase --onto A a1' B") ∧
  trace r.2 = [SetPrevRef "A" "a1"; Checkout "A";
               Exec "git rebase --onto main m1 A";
               SetPrevRef "B" "b1"; Checkout "B";
               Exec "git rebase --onto A a1' B"] ∧
  prevRefs (meta r.2) !! "B" = Some "b1" ∧
  prevRefs (meta r.2) !! "C" = None.
Proof. vm_compute. repeat split. Qed.

(** Scenario: a restack from [main] with no conflict visits [A], [B], [C]
    in this order and returns to [main]. *)
Example restack_scenario :
  let H := Toy.host [] true in
  let r := @_execute _ H 4 (Toy.args None) (Toy.world "main" false) in
  r.1 = Returned tt ∧
  subtree (child_names (meta r.2)) 4 "A" = Some ["A"; "B"; "C"] ∧
  trace r.2 = [SetPrevRef "A" "a1"; Checkout "A";
               Exec "git rebase --onto main m1 A";
               SetPrevRef "B" "b1"; Checkout "B";
               Exec "git rebase --onto A a1' B";
               SetPrevRef "C" "c1"; Checkout "C";
               Exec "git rebase --onto B b1' C"; Checkout "main"].
Proof. vm_compute. repeat split. Qed.

(** Scenario: [restack --onto feature] from [A]. *)
Example restack_onto_scenario :
  let H := Toy.host [] true in
  let r := @_execute _ H 4 (Toy.args (Some "feature")) (Toy.world "A" false) in
  r.1 = Returned tt ∧
  parents (meta r.2) !! "A" = Some "feature" ∧
  prevRefs (meta r.2) !! "A" = Some "a1" ∧
  trace r.2 = [SetPrevRef "A" "a1";
               Exec "git rebase --onto feature $(git merge-base A main) A";
               SetParent "A" "feature";
               SetPrevRef "B" "b1"; Checkout "B";
               Exec "git rebase --onto A a1' B";
               SetPrevRef "C" "c1"; Checkout "C";
               Exec "git rebase --onto B b1' C"; Checkout "A"].
Proof. vm_compute. repeat split. Qed.

End RestackRuns.

(** ** Submit *)

Section SubmitFacts.
Import Submit.
Context `{!Env}.

#[local] Arguments msg_merged_head : simpl never.
#[local] Arguments msg_merged_hint : simpl never.
#[local] Arguments msg_closed_head : simpl never.
#[local] Arguments msg_closed_hint : simpl never.
#[local] Arguments msg_empty_head : simpl never.
#[local] Arguments msg_empty_question : simpl never.
#[local] Arguments msg_no_parent : simpl never.
#[local] Arguments msg_step1 : simpl never.
#[local] Arguments empty_choices : simpl never.
#[local] Arguments bullet : simpl never.

Lemma say_nil (w : World) : say w [] = w.
Proof. destruct w. unfold say. simpl. now rewrite app_nil_r. Qed.

Lemma say_say (w : World) (l1 l2 : list Output) :
  say (say w l1) l2 = say w (l1 ++ l2).
Proof. unfold say. simpl. now rewrite app_assoc. Qed.

Lemma emit_say (o : Output) (w : World) : emit o w = (Returned tt, say w [o]).
Proof. reflexivity. Qed.

Lemma for_of_emit (f : Branch → Output) (l : list Branch) (w : World) :
  for_of l (λ b, emit (f b)) w = (Returned tt, say w (f <$> l)).
Proof.
  revert w. induction l as [|b l IH]; intros w; simpl.
  - now rewrite say_nil.
  - unfold bind. rewrite emit_say, IH. now rewrite say_say.
Qed.

Lemma filterM_has_state (s : PRState) (bs : list Branch) (w : World) :
  filterM (has_state s) bs w = (Returned (with_state w s bs), w).
Proof.
  unfold with_state. induction bs as [|b bs IH]; [reflexivity|].
  simpl. unfold bind at 1. unfold has_state at 1, getPRInfo, reads, bind at 1.
  simpl. unfold bind at 1. rewrite IH. unfold ret.
  rewrite filter_cons. unfold bool_decide. now destruct (decide_rel _ _ _).
Qed.

Lemma hasAnyMergedBranches_run (bs : list Branch) (w : World) :
  hasAnyMergedBranches bs w
  = if decide (with_state w MERGED bs = [])
    then (Returned false, w)
    else (Returned true, say w (merged_lines (with_state w MERGED bs))).
Proof.
  unfold hasAnyMergedBranches, bind at 1. rewrite filterM_has_state.
  destruct (with_state w MERGED bs) as [|b l] eqn:E; [reflexivity|].
  rewrite decide_False by discriminate.
  rewrite bool_decide_eq_false_2 by discriminate.
  unfold logError, bind. rewrite emit_say, for_of_emit, emit_say.
  unfold ret, merged_lines. now rewrite !say_say.
Qed.

Lemma hasAnyClosedBranches_run (bs : list Branch) (w : World) :
  hasAnyClosedBranches bs w
  = if decide (with_state w CLOSED bs = [])
    then (Returned false, w)
    else (Returned true, say w (closed_lines (with_state w CLOSED bs))).
Proof.
  unfold hasAnyClosedBranches, bind at 1. rewrite filterM_has_state.
  destruct (with_state w CLOSED bs) as [|b l] eqn:E; [reflexivity|].
  rewrite decide_False by discriminate.
  rewrite bool_decide_eq_false_2 by discriminate.
  unfold logError, bind. rewrite emit_say, for_of_emit, emit_say.
  unfold ret, closed_lines. now rewrite !say_say.
Qed.



Lemma getBranchBaseName_run (b : Branch) (w : World) :
  getBranchBaseName b w
  = match parents w !! name b with
    | Some p => (Returned p, w)
    | None => (Threw (PreconditionsFailedError (msg_no_parent (name b))), w)
    end.
Proof.
  unfold getBranchBaseName, getParentFromMeta, reads, bind. simpl.
  now destruct (parents w !! name b).
Qed.

Lemma filterM_cons {A} (p : A → M World bool) (x : A) (l : list A) (w : World) :
  filterM p (x :: l) w
  = match p x w with
    | (Returned keep, w1) =>
        match filterM p l w1 with
        | (Returned rest, w2) => (Returned (if keep then x :: rest else rest), w2)
        | (Threw e, w2) => (Threw e, w2)
        | (Exited c, w2) => (Exited c, w2)
        | (OutOfFuel, w2) => (OutOfFuel, w2)
        end
    | (Threw e, w1) => (Threw e, w1)
    | (Exited c, w1) => (Exited c, w1)
    | (OutOfFuel, w1) => (OutOfFuel, w1)
    end.
Proof.
  simpl. unfold bind. destruct (p x w) as [[keep| | |] w1]; reflexivity.
Qed.

Lemma filterM_empty_returned (bs : list Branch) (w : World) :
  (∀ b, b ∈ bs → is_Some (parents w !! name b)) →
  filterM (λ branch,
    let* baseName := getBranchBaseName branch in
    ret (isEmptyBranch (name branch) baseName)) bs w
  = (Returned (empty_branches w bs), w).
Proof.
  unfold empty_branches. induction bs as [|b bs IH]; intros Hp; [reflexivity|].
  destruct (Hp b) as [p Hb]; [apply list_elem_of_here|].
  rewrite filterM_cons. unfold bind at 1. rewrite getBranchBaseName_run, Hb.
  unfold ret at 1.
  rewrite IH by (intros; apply Hp; now apply list_elem_of_further).
  rewrite filter_cons.
  assert (branch_is_empty w b = isEmptyBranch (name b) p) as ->
    by (unfold branch_is_empty; now rewrite Hb).
  destruct (isEmptyBranch (name b) p); [now rewrite decide_True|].
  now rewrite decide_False.
Qed.

Lemma filterM_empty_threw (bs : list Branch) (w : World) :
  ¬ (∀ b, b ∈ bs → is_Some (parents w !! name b)) →
  ∃ b, b ∈ bs ∧ parents w !! name b = None ∧
    filterM (λ branch,
      let* baseName := getBranchBaseName branch in
      ret (isEmptyBranch (name branch) baseName)) bs w
    = (Threw (PreconditionsFailedError (msg_no_parent (name b))), w).
Proof.
  induction bs as [|b bs IH]; intros Hp.
  - exfalso. apply Hp. intros b Hb. now apply elem_of_nil in Hb.
  - destruct (parents w !! name b) as [p|] eqn:Hb.
    + destruct IH as (b' & Hin & Hnone & Hrun).
      { intros Hall. apply Hp. intros b' Hb'.
        apply elem_of_cons in Hb' as [->|Hb']; [now rewrite Hb|auto]. }
      exists b'. split; [now apply list_elem_of_further|]. split; [done|].
      rewrite filterM_cons. unfold bind at 1.
      rewrite getBranchBaseName_run, Hb. unfold ret at 1. now rewrite Hrun.
    + exists b. split; [apply list_elem_of_here|]. split; [done|].
      rewrite filterM_cons. unfold bind at 1.
      now rewrite getBranchBaseName_run, Hb.
Qed.

(** How [checkForEmptyBranches] runs on branches that all have a parent. *)
Lemma checkForEmptyBranches_run (bs : list Branch) (w : World) :
  (∀ b, b ∈ bs → is_Some (parents w !! name b)) →
  let empties := empty_branches w bs in
  checkForEmptyBranches bs w
  = if decide (empties = []) then (Returned bs, w)
    else if interactive then
      match empty_answer w empties with
      | Selected value =>
          (Returned (if bool_decide (value = "continue_empty")
                     then bs else []),
           say w (empty_lines empties ++ [empty_prompt empties; LogNewline]))
      | Cancelled =>
          (Threw KilledError,
           say w (empty_lines empties ++ [empty_prompt empties]))
      end
    else (Returned [], say w (empty_lines empties)).
Proof.
  intros Hp empties. unfold checkForEmptyBranches, bind at 1.
  rewrite (filterM_empty_returned bs w Hp). fold empties.
  destruct empties as [|e es] eqn:E; [reflexivity|].
  rewrite decide_False by discriminate.
  rewrite bool_decide_eq_false_2 by discriminate.
  unfold logWarn, logNewline, bind at 1. rewrite emit_say.
  unfold bind at 1. rewrite for_of_emit.
  unfold bind at 1. rewrite emit_say. unfold bind at 1. rewrite emit_say.
  rewrite !say_say.
  destruct interactive; [|reflexivity].
  unfold empty_answer, empty_lines, empty_prompt, prompts, reads, bind.
  change (negb true) with false. cbv iota beta.
  rewrite emit_say, !say_say.
  change ([LogWarn (msg_empty_question (bool_decide (1 < length (e :: es))))]
          ++ [LogNewline])
    with [LogWarn (msg_empty_question (bool_decide (1 < length (e :: es))));
          LogNewline].
  destruct (prompts_answer _ _); [|reflexivity].
  unfold ret at 1. cbv iota beta. rewrite emit_say, !say_say. unfold ret.
  now rewrite <- !app_assoc.
Qed.


(** C10. [checkForEmptyBranches] is all or nothing.  When it returns, the
    list is the whole input (no branch is empty, or the user chose to
    continue) or the empty list (non-interactive, or the user chose
    otherwise); it never exits, and it throws only when the user cancels the
    prompt or a branch has no parent in meta. *)
Theorem checkForEmptyBranches_all_or_nothing (bs : list Branch) (w : World) :
  let empties := empty_branches w bs in
  match checkForEmptyBranches bs w with
  | (Returned l, _) =>
      (l = bs ∧
       (empties = [] ∨
        interactive = true ∧
        empty_answer w empties = Selected "continue_empty")) ∨
      (l = [] ∧ empties ≠ [] ∧
       (interactive = false ∨
        ∃ value, empty_answer w empties = Selected value ∧
                 value ≠ "continue_empty"))
  | (Threw e, _) =>
      (e = KilledError ∧ empties ≠ [] ∧ interactive = true ∧
       empty_answer w empties = Cancelled) ∨
      (∃ b, b ∈ bs ∧ parents w !! name b = None ∧
            e = PreconditionsFailedError (msg_no_parent (name b)))
  | (Exited _, _) | (OutOfFuel, _) => False
  end.
Proof.
  intros empties.
  destruct (decide (Forall (λ b, is_Some (parents w !! name b)) bs))
    as [Hp|Hp]; rewrite Forall_forall in Hp.
  - rewrite (checkForEmptyBranches_run bs w Hp). fold empties.
    destruct (decide (empties = [])) as [E|E]; [now left; auto|].
    destruct interactive; [|now right; auto].
    destruct (empty_answer w empties) as [value|]; [|now left].
    destruct (bool_decide (value = "continue_empty")) eqn:Ev.
    + apply bool_decide_eq_true_1 in Ev as ->. left. auto.
    + apply bool_decide_eq_false_1 in Ev. right. eauto 6.
  - destruct (filterM_empty_threw bs w Hp) as (b & Hb & Hnone & Hrun).
    unfold checkForEmptyBranches, bind at 1. rewrite Hrun. right. eauto.
Qed.


End SubmitFacts.


Section SubmitRequestFacts.
Import Submit.
Context `{!Env}.

#[local] Arguments msg_auth_expired : simpl never.
#[local] Arguments msg_unexpected : simpl never.
#[local] Arguments msg_submit_failed : simpl never.





Lemma requests_by_head_singleton (r : TSubmittedPRRequest) :
  requests_by_head [r] !! req_head r = Some r.
Proof. unfold requests_by_head. simpl. apply lookup_insert_eq. Qed.

Lemma requestServerToSubmitPRs_run
    (submissionInfo : list TSubmittedPRRequest) (mergeWhenReady : bool)
    (trunkBranchName : string) (w : World) :
  let params := mkParams getRepoOwner getRepoName mergeWhenReady
                  trunkBranchName submissionInfo in
  let reply := server params in
  requestServerToSubmitPRs submissionInfo mergeWhenReady trunkBranchName w
  = (if bool_decide (status (_response reply) = SUCCESS_RESPONSE_CODE)
        && body_truthy (_response reply)
     then Returned ((λ prResponse,
                       mkSubmittedPR
                         (requests_by_head submissionInfo
                            !! resp_head prResponse) prResponse)
                      <$> response_prs reply)
     else if bool_decide (status (_response reply) = UNAUTHORIZED_RESPONSE_CODE)
     then Threw (PreconditionsFailedError msg_auth_expired)
     else Threw (ExitFailedError (msg_unexpected reply)),
     requested submissionInfo params w).
Proof.
  intros params reply.
  unfold requestServerToSubmitPRs, requestWithArgs, emit, modify, bind, ret.
  simpl. fold params. fold reply.
  destruct (bool_decide (status (_response reply) = SUCCESS_RESPONSE_CODE)
            && body_truthy (_response reply)); [reflexivity|].
  now destruct (bool_decide (status (_response reply)
                             = UNAUTHORIZED_RESPONSE_CODE)).
Qed.


(** C3, as the code has it.  After a successful request,
    [submitPullRequest] applies the first response of the batch: when it is
    a success for [head] and a request of the batch has that head, the PR
    info of [head] is upserted with the response's number and URL, the
    request's base and state OPEN; hence, when the request's base is the
    parent of [head] in meta, the stored base equals the parent. *)
Theorem submitPullRequest_applies_first
    (submissionInfo : list TSubmittedPRRequest) (mergeWhenReady : bool)
    (trunkBranchName cliAuthToken : string) (w : World)
    (head : string) (st : SuccessStatus) (prNumber : Z) (prURL : string)
    (others : list TSubmittedPRResponse) (request : TSubmittedPRRequest) :
  let params := mkParams getRepoOwner getRepoName mergeWhenReady
                  trunkBranchName submissionInfo in
  let reply := server params in
  status (_response reply) = SUCCESS_RESPONSE_CODE →
  body_truthy (_response reply) = true →
  response_prs reply = ResponseOk head st prNumber prURL :: others →
  requests_by_head submissionInfo !! head = Some request →
  ∃ w' info,
    submitPullRequest submissionInfo mergeWhenReady trunkBranchName
      cliAuthToken w = (Returned tt, w') ∧
    prInfos w' = <[head := info]> (prInfos w) ∧
    info = merge_prInfo (default empty_prInfo (prInfos w !! head))
             (submitted_patch request prNumber prURL) ∧
    pr_number info = Some prNumber ∧
    pr_url info = Some prURL ∧
    pr_base info = Some (req_base request) ∧
    pr_state info = Some OPEN ∧
    parents w' = parents w ∧
    (parents w !! head = Some (req_base request) →
     prInfos w' !! head ≫= pr_base = parents w' !! head).
Proof.
  intros params reply Hs Hb Hprs Hreq.
  pose proof (requestServerToSubmitPRs_run submissionInfo mergeWhenReady
                trunkBranchName w) as Hrun.
  cbv zeta in Hrun. fold params reply in Hrun.
  rewrite Hs, Hb, Hprs in Hrun. simpl in Hrun.
  eexists. eexists. split.
  { unfold submitPullRequest, bind at 1. rewrite Hrun. simpl. rewrite Hreq.
    reflexivity. }
  simpl. repeat split. intros Hp. rewrite lookup_insert_eq. simpl.
  now rewrite Hp.
Qed.

(** C9, as the code has it.  When the first response of the batch has
    status error, [submitPullRequest] throws an error that names the
    response's head and carries the message found under
    [response.data.message] of the parsed error string, or the error string
    itself when it does not parse or has no such message; no PR info is
    written. *)
Theorem submitPullRequest_error_response
    (submissionInfo : list TSubmittedPRRequest) (mergeWhenReady : bool)
    (trunkBranchName cliAuthToken : string) (w : World)
    (head error : string) (others : list TSubmittedPRResponse) :
  let params := mkParams getRepoOwner getRepoName mergeWhenReady
                  trunkBranchName submissionInfo in
  let reply := server params in
  status (_response reply) = SUCCESS_RESPONSE_CODE →
  body_truthy (_response reply) = true →
  response_prs reply = ResponseError head error :: others →
  ∃ message,
    submitPullRequest submissionInfo mergeWhenReady trunkBranchName
      cliAuthToken w
    = (Threw (ExitFailedError
                ("Failed to submit PR for " +:+ head +:+ ": " +:+ message)),
       requested submissionInfo params w) ∧
    prInfos (requested submissionInfo params w) = prInfos w ∧
    (JSON_parse error = None → message = error) ∧
    (∀ v, JSON_parse error = Some v →
       match get_prop "message"
               (get_prop "data" (get_prop "response" (Some v))) with
       | Some (JString text) => message = text
       | Some JNull | None => message = error
       | Some other => message = String_of other
       end).
Proof.
  intros params reply Hs Hb Hprs.
  pose proof (requestServerToSubmitPRs_run submissionInfo mergeWhenReady
                trunkBranchName w) as Hrun.
  cbv zeta in Hrun. fold params reply in Hrun.
  rewrite Hs, Hb, Hprs in Hrun. simpl in Hrun.
  exists (template (parseSubmitError error)). split; [|split; [|split]].
  - unfold submitPullRequest, bind at 1. now rewrite Hrun.
  - reflexivity.
  - intros Hparse. unfold parseSubmitError. now rewrite Hparse.
  - intros v Hparse. unfold parseSubmitError. rewrite Hparse.
    destruct (get_prop "message" _) as [[]|]; reflexivity.
Qed.

End SubmitRequestFacts.

(** ** Submit on the small review host *)

Section SubmitRuns.
Import Submit.




(** A batch of one branch: its response is applied. *)
Lemma submitPullRequest_applies_first_witness :
  let E := Toy.env false Cancelled
             (Toy.reply 200 [ResponseOk "B" created 12 "https://host/12"]) in
  let w := Toy.submit_world ∅ in
  ∃ w' info,
    @submitPullRequest E [Toy.request create "B" "A"] false "main" "token" w
      = (Returned tt, w') ∧
    prInfos w' = <["B" := info]> (prInfos w) ∧
    info = merge_prInfo (default empty_prInfo (prInfos w !! "B"))
             (submitted_patch (Toy.request create "B" "A") 12
                "https://host/12") ∧
    pr_number info = Some 12%Z ∧
    pr_url info = Some "https://host/12" ∧
    pr_base info = Some "A" ∧
    pr_state info = Some OPEN ∧
    parents w' = parents w ∧
    (parents w !! "B" = Some "A" →
     prInfos w' !! "B" ≫= pr_base = parents w' !! "B").
Proof.
  intros E w.
  apply (@submitPullRequest_applies_first E [Toy.request create "B" "A"]
           false "main" "token" w "B" created 12 "https://host/12" []
           (Toy.request create "B" "A")); reflexivity.
Defined.

(** C3 fails on the code: in a batch of two branches, both created by the
    server, only the first response is written to meta. *)
Lemma submitPullRequest_skips_later_responses :
  let E := Toy.env false Cancelled
             (Toy.reply 200 [ResponseOk "A" created 11 "https://host/11";
                             ResponseOk "B" created 12 "https://host/12"]) in
  let batch := [Toy.request create "A" "main"; Toy.request create "B" "A"] in
  let r := @submitPullRequest E batch false "main" "token"
             (Toy.submit_world ∅) in
  r.1 = Returned tt ∧
  prs <$> api_calls r.2 = [batch] ∧
  prInfos r.2 !! "A" ≫= pr_base = Some "main" ∧
  prInfos r.2 !! "B" = None.
Proof. vm_compute. repeat split. Qed.

(** The error of the first response is reported, with the message of the
    review host's envelope. *)
Lemma submitPullRequest_error_response_witness :
  let E := Toy.env false Cancelled
             (Toy.reply 200 [ResponseError "B" "{...}"]) in
  let batch := [Toy.request create "B" "A"] in
  let w := Toy.submit_world ∅ in
  @submitPullRequest E batch false "main" "token" w
  = (Threw (ExitFailedError "Failed to submit PR for B: Validation Failed"),
     requested batch (mkParams "mx1ao" "graphite-cli" false "main" batch) w).
Proof.
  intros E batch w.
  destruct (@submitPullRequest_error_response E batch false "main" "token" w
              "B" "{...}" []) as (message & Hrun & _ & _ & Hparsed);
    [reflexivity..|].
  specialize (Hparsed Toy.envelope eq_refl). simpl in Hparsed.
  rewrite Hrun, Hparsed. reflexivity.
Defined.

(** C9 fails on the code: an error response that is not the first of the
    batch is not looked at; the call returns. *)
Lemma submitPullRequest_ignores_later_error :
  let E := Toy.env false Cancelled
             (Toy.reply 200 [ResponseOk "A" created 11 "https://host/11";
                             ResponseError "B" "{...}"]) in
  let batch := [Toy.request create "A" "main"; Toy.request create "B" "A"] in
  let r := @submitPullRequest E batch false "main" "token"
             (Toy.submit_world ∅) in
  r.1 = Returned tt ∧
  ∀ e, r.1 ≠ Threw e.
Proof. vm_compute. split; [reflexivity|discriminate]. Qed.

(** The three answers at the prompt: continue, abort, cancel. *)
Example checkForEmptyBranches_answers :
  let bs := [mkBranch "A"; mkBranch "B"] in
  let run answer :=
    (@checkForEmptyBranches (Toy.env true answer (Toy.reply 200 [])) bs
       (Toy.submit_world ∅)).1 in
  run (Selected "continue_empty") = Returned bs ∧
  run (Selected "fix_manually") = Returned [] ∧
  run Cancelled = Threw KilledError.
Proof. vm_compute. repeat split. Qed.

End SubmitRuns.

(** * Further properties of the code *)

(** ** The effect monad, continued *)

Lemma bind_preserves {W A B} (R : W → W → Prop) (m : M W A) (k : A → M W B) :
  (∀ w1 w2 w3, R w1 w2 → R w2 w3 → R w1 w3) →
  (∀ w r w', m w = (r, w') → R w w') →
  (∀ a w r w', k a w = (r, w') → R w w') →
  ∀ w r w', bind m k w = (r, w') → R w w'.
Proof.
  intros Htrans Hm Hk w r w' Hrun. unfold bind in Hrun.
  destruct (m w) as [o w1] eqn:E. apply Hm in E.
  destruct o; try (injection Hrun as _ <-; exact E).
  eapply Htrans; [exact E|]. eapply Hk. exact Hrun.
Qed.

Lemma filter_none {A} (P : A → Prop) `{!∀ x, Decision (P x)} (l : list A) :
  (∀ x, x ∈ l → ¬ P x) → filter P l = [].
Proof.
  induction l as [|x l IH]; intros Hl; [reflexivity|].
  rewrite filter_cons_False by (apply Hl, list_elem_of_here).
  apply IH. intros y Hy. apply Hl. now apply list_elem_of_further.
Qed.

(** ** Restack, continued *)

Section RestackMore.
Import Restack.
Context {G : Type} `{!Host G}.

#[local] Arguments cmd_rebase : simpl never.
#[local] Arguments cmd_rebase_onto : simpl never.
#[local] Arguments msg_rebase_in_progress : simpl never.
#[local] Arguments msg_no_parent : simpl never.
#[local] Arguments msg_no_merge_base : simpl never.
#[local] Arguments msg_no_parent_onto : simpl never.
#[local] Arguments msg_trunk : simpl never.
#[local] Arguments msg_validate : simpl never.

(** X1. [restackOnto] has a third gate: a branch that is not listed as trunk
    and whose stack validates, but that has no parent in meta, makes the
    process exit with status 1 after the message that the branch has no
    parent; Git, meta and the trace are as before. *)
Theorem restackOnto_requires_parent (fuel : nat) (C T : string)
    (argv : argsT) (w : World G) :
  in_trunkBranches C = false →
  validate_ok (git w) (meta w) = true →
  parents (meta w) !! C = None →
  restackOnto fuel (mkBranch C) T argv w
    = (Exited 1,
       refused (Log (chalk_red (msg_no_parent_onto C)) (silent argv)) w).
Proof.
  intros Ht Hv Hp.
  unfold restackOnto, checkBranchCanBeMoved, validate, validateCommand,
    getParentForRebaseOnto, getParentFromMeta, reads, bind.
  simpl. rewrite Ht. simpl. rewrite Hv. simpl. now rewrite Hp.
Qed.

(** X2. With a clean tree and no branch checked out, the command prints its
    first line (and the stacks unless silent), then the error that there is
    no target to restack, and exits; Git, meta and the trace are as
    before. *)
Theorem _execute_requires_branch (fuel : nat) (argv : argsT) (w : World G) :
  git_uncommittedChanges (git w) = false →
  git_currentBranch (git w) = None →
  _execute fuel argv w
    = (Exited logErrorAndExit_code,
       mkWorld (git w) (meta w)
         (output w ++ [Log "Before restack:" (silent argv)] ++
          (if silent argv then [] else [PrintStacks]) ++
          [ErrorAndExit "Not currently on a branch; no target to restack."])
         (trace w)).
Proof.
  intros Hd Hb.
  unfold _execute, uncommittedChanges, getCurrentBranch, logErrorAndExit,
    reads, bind.
  simpl. rewrite Hd. simpl. destruct (silent argv); simpl; rewrite Hb; simpl;
    rewrite <- ?app_assoc; reflexivity.
Qed.

Lemma extends_output (w : World G) (out : list Output) :
  extends w (mkWorld (git w) (meta w) out (trace w)).
Proof. repeat split. exists []. simpl. now rewrite app_nil_r. Qed.

Lemma emit_extends (o : Output) (w : World G) r w' :
  emit o w = (r, w') → extends w w'.
Proof. intros E. injection E as _ <-. apply extends_output. Qed.

Lemma logErrorAndExit_extends {A} (message : string) (w : World G)
    (r : Outcome A) w' :
  logErrorAndExit message w = (r, w') → extends w w'.
Proof. intros E. injection E as _ <-. apply extends_output. Qed.

Lemma checkoutBranch_extends (b : string) (w : World G) r w' :
  checkoutBranch b w = (r, w') → extends w w'.
Proof.
  unfold checkoutBranch. destruct (git_checkout b (git w)) as [o g].
  intros E. injection E as _ <-. repeat split. now eexists.
Qed.

Lemma restack_children_extends (fuel : nat) (argv : argsT)
    (cs : list Branch) (w : World G) r w' :
  for_of cs (λ child, restackBranch fuel child argv) w = (r, w') →
  extends w w'.
Proof.
  apply (for_of_preserves extends _ _ extends_refl extends_trans).
  intros c w1 r1 w1'. apply restackBranch_extends.
Qed.

(** X4. A restack without [--onto] never changes which branch is whose
    parent nor the listing of tracked branches, whatever its outcome; it
    only adds to the trace. *)
Theorem _execute_keeps_parents (fuel : nat) (argv : argsT) (w : World G)
    (r : Outcome unit) (w' : World G) :
  truthy_string (onto argv) = None →
  _execute fuel argv w = (r, w') →
  parents (meta w') = parents (meta w) ∧
  tracked (meta w') = tracked (meta w) ∧
  ∃ events, trace w' = trace w ++ events.
Proof.
  intros Honto. unfold _execute. rewrite Honto. revert w r w'.
  apply (bind_preserves extends _ _ extends_trans).
  { intros w r w' E. injection E as _ <-. apply extends_refl. }
  intros dirty. apply (bind_preserves extends _ _ extends_trans).
  { destruct dirty; intros w r w' E.
    - eapply logErrorAndExit_extends, E.
    - injection E as _ <-. apply extends_refl. }
  intros _. apply (bind_preserves extends _ _ extends_trans).
  { intros w r w'. apply emit_extends. }
  intros _. apply (bind_preserves extends _ _ extends_trans).
  { destruct (silent argv); intros w r w' E.
    - injection E as _ <-. apply extends_refl.
    - eapply emit_extends, E. }
  intros _. apply (bind_preserves extends _ _ extends_trans).
  { intros w r w' E. injection E as _ <-. apply extends_refl. }
  intros [orig|]; [|intros w r w'; apply logErrorAndExit_extends].
  apply (bind_preserves extends _ _ extends_trans).
  { apply (bind_preserves extends _ _ extends_trans).
    - intros w r w' E. injection E as _ <-. apply extends_refl.
    - intros cs w r w'. apply restack_children_extends. }
  intros _. apply (bind_preserves extends _ _ extends_trans).
  { intros w r w'. apply checkoutBranch_extends. }
  intros _. apply (bind_preserves extends _ _ extends_trans).
  { intros w r w'. apply emit_extends. }
  intros _. destruct (silent argv); intros w r w' E.
  - injection E as _ <-. apply extends_refl.
  - eapply emit_extends, E.
Qed.

Lemma reparented_trans (C T : string) (w1 w2 w3 : World G) :
  reparented C T w1 w2 → reparented C T w2 w3 → reparented C T w1 w3.
Proof.
  intros (Ht1 & Hx1 & HC1 & e1 & He1) (Ht2 & Hx2 & HC2 & e2 & He2).
  split; [congruence|]. split; [|split].
  - intros x Hx. rewrite Hx2, Hx1; auto.
  - destruct HC2 as [HC2|HC2]; [rewrite HC2; exact HC1|now right].
  - exists (e1 ++ e2). rewrite He2, He1. now rewrite app_assoc.
Qed.

Lemma extends_reparented (C T : string) (w w' : World G) :
  extends w w' → reparented C T w w'.
Proof.
  intros (Hp & Ht & He). split; [exact Ht|].
  split; [intros; now rewrite Hp|]. split; [left; now rewrite Hp|exact He].
Qed.

Lemma restackOnto_reparented (fuel : nat) (C T : string) (argv : argsT) :
  ∀ (w : World G) r w',
    restackOnto fuel (mkBranch C) T argv w = (r, w') → reparented C T w w'.
Proof.
  unfold restackOnto.
  apply (bind_preserves _ _ _ (reparented_trans C T)).
  { intros w r w' E. apply extends_reparented.
    unfold checkBranchCanBeMoved in E. destruct (in_trunkBranches _).
    - injection E as _ <-. apply extends_output.
    - injection E as _ <-. apply extends_refl. }
  intros _. apply (bind_preserves _ _ _ (reparented_trans C T)).
  { intros w r w' E. apply extends_reparented.
    unfold validate, validateCommand, reads, bind in E.
    destruct (validate_ok _ _).
    - injection E as _ <-. apply extends_refl.
    - injection E as _ <-. apply extends_output. }
  intros _. apply (bind_preserves _ _ _ (reparented_trans C T)).
  { intros w r w' E. apply extends_reparented.
    unfold getParentForRebaseOnto, getParentFromMeta, reads, bind in E.
    destruct (mkBranch <$> _).
    - injection E as _ <-. apply extends_refl.
    - injection E as _ <-. apply extends_output. }
  intros parent. apply (bind_preserves _ _ _ (reparented_trans C T)).
  { intros w r w' E. injection E as _ <-. apply extends_reparented,
      extends_refl. }
  intros ref. apply (bind_preserves _ _ _ (reparented_trans C T)).
  { intros w r w' E. injection E as _ <-. apply extends_reparented.
    repeat split. now eexists. }
  intros _. apply (bind_preserves _ _ _ (reparented_trans C T)).
  { intros w r w' E. apply extends_reparented. unfold execSync in E.
    destruct (git_exec _ _) as [[] g]; injection E as _ <-;
      repeat split; now eexists. }
  intros _. apply (bind_preserves _ _ _ (reparented_trans C T)).
  { intros w r w' E. injection E as _ <-. split; [reflexivity|].
    split; [|split].
    - intros x Hx. simpl. now apply lookup_insert_ne.
    - right. simpl. apply lookup_insert_eq.
    - now eexists. }
  intros _. apply (bind_preserves _ _ _ (reparented_trans C T)).
  { intros w r w' E. injection E as _ <-. apply extends_reparented,
      extends_refl. }
  intros cs w r w' E. apply extends_reparented.
  eapply restack_children_extends, E.
Qed.

(** X5. Whatever its outcome, [restackOnto] of [C] onto [T] leaves the
    parent of every other branch and the listing alone; the parent of [C]
    is as before or is [T]. *)
Theorem restackOnto_parents_elsewhere (fuel : nat) (C T : string)
    (argv : argsT) (w : World G) :
  let w' := (restackOnto fuel (mkBranch C) T argv w).2 in
  tracked (meta w') = tracked (meta w) ∧
  (∀ x, x ≠ C → parents (meta w') !! x = parents (meta w) !! x) ∧
  (parents (meta w') !! C = parents (meta w) !! C ∨
   parents (meta w') !! C = Some T).
Proof.
  intros w'. subst w'.
  destruct (restackOnto fuel (mkBranch C) T argv w) as [r w'] eqn:E.
  apply restackOnto_reparented in E as (Ht & Hx & HC & _). auto.
Qed.

(** X6. When [restackBranch b] returns, the previous ref of [b] is the tip
    [b] had on entry: the restacks of its descendants do not write it. *)
Theorem restackBranch_records_tip (fuel : nat) (b : string) (opts : argsT)
    (w w' : World G) :
  restackBranch fuel (mkBranch b) opts w = (Returned tt, w') →
  prevRefs (meta w') !! b = Some (git_revParse b (git w)).
Proof.
  destruct fuel as [|f]; intros Hrun; [discriminate|].
  simpl in Hrun.
  unfold bind, rebaseInProgress, getParentFromMeta, getMetaMergeBase, reads
    in Hrun. simpl in Hrun.
  destruct (git_rebaseInProgress (git w)); [discriminate|]. simpl in Hrun.
  destruct (parents (meta w) !! b) as [p|] eqn:Hp; [|discriminate].
  simpl in Hrun.
  destruct (truthy_string (metaMergeBase b w)) as [mb|]; [|discriminate].
  unfold checkoutBranch, execSync in Hrun. simpl in Hrun.
  destruct (git_checkout b (git w)) as [[[]| | |] g1]; try discriminate.
  simpl in Hrun.
  destruct (git_exec (cmd_rebase p mb b) g1) as [[] g2]; [|discriminate].
  apply (restack_loop_returned f opts (restackBranch_returned f opts)) in Hrun
    as (_ & _ & ls & events & Hls & Hfr & _ & _).
  simpl in *. rewrite names_children_of in Hls.
  rewrite Hfr; [apply lookup_insert_eq|].
  eapply subtree_acyclic. exact Hls.
Qed.

Lemma subtree_closed ch fuel b l :
  subtree ch fuel b = Some l →
  b ∈ l ∧ ∀ x c, x ∈ l → c ∈ ch x → c ∈ l.
Proof.
  revert b l. induction fuel as [|f IH]; intros b l Hs; [discriminate|].
  rewrite subtree_S in Hs.
  destruct (mapM (subtree ch f) (ch b)) as [ls|] eqn:Hm; [|discriminate].
  simpl in Hs. injection Hs as <-.
  split; [apply list_elem_of_here|].
  assert (∀ c, c ∈ ch b → c ∈ concat ls) as Hch.
  { intros c Hc. apply mapM_Some in Hm.
    apply list_elem_of_lookup in Hc as [i Hi].
    destruct (Forall2_lookup_l _ _ _ _ _ Hm Hi) as (lc & Hlc & Hsc).
    apply IH in Hsc as [Hin _].
    apply list_elem_of_In, in_concat. exists lc.
    split; apply list_elem_of_In; [|exact Hin].
    apply list_elem_of_lookup. eauto. }
  intros x c Hx Hc. apply list_elem_of_further.
  apply elem_of_cons in Hx as [->|Hx]; [now apply Hch|].
  apply elem_of_concat in Hx as (lc & Hxlc & Hlc).
  destruct (mapM_subtree_elem _ _ _ _ _ Hm Hlc) as (c0 & _ & Hsc).
  apply IH in Hsc as [_ Hclosed].
  apply list_elem_of_In, in_concat. exists lc.
  split; apply list_elem_of_In; [exact Hlc|]. eapply Hclosed; eauto.
Qed.

Lemma subtree_cycle ch fuel b :
  tc (λ x c, c ∈ ch x) b b → subtree ch fuel b = None.
Proof.
  intros Hcycle. destruct (subtree ch fuel b) as [l|] eqn:Hs; [|reflexivity].
  exfalso. destruct fuel as [|f]; [discriminate|].
  rewrite subtree_S in Hs.
  destruct (mapM (subtree ch f) (ch b)) as [ls|] eqn:Hm; [|discriminate].
  apply (subtree_acyclic ch f b ls Hm).
  assert (∀ x y, rtc (λ x c, c ∈ ch x) x y → x ∈ concat ls → y ∈ concat ls)
    as Hrtc.
  { intros x y Hxy. induction Hxy as [|x z y Hxz _ IH]; [auto|].
    intros Hx. apply IH.
    apply elem_of_concat in Hx as (lc & Hxlc & Hlc).
    destruct (mapM_subtree_elem _ _ _ _ _ Hm Hlc) as (c0 & _ & Hsc).
    apply subtree_closed in Hsc as [_ Hclosed].
    apply list_elem_of_In, in_concat. exists lc.
    split; apply list_elem_of_In; [exact Hlc|]. eapply Hclosed; eauto. }
  assert (∀ c, c ∈ ch b → c ∈ concat ls) as Hch.
  { intros c Hc. apply mapM_Some in Hm.
    apply list_elem_of_lookup in Hc as [i Hi].
    destruct (Forall2_lookup_l _ _ _ _ _ Hm Hi) as (lc & Hlc & Hsc).
    apply subtree_closed in Hsc as [Hin _].
    apply list_elem_of_In, in_concat. exists lc.
    split; apply list_elem_of_In; [|exact Hin].
    apply list_elem_of_lookup. eauto. }
  inversion Hcycle as [? ? Hstep|? z ? Hstep Hrest]; subst.
  - now apply Hch.
  - eapply Hrtc; [apply tc_rtc; exact Hrest|]. now apply Hch.
Qed.

(** X7. On a meta in which [b] is among its own descendants,
    [restackBranch b] never returns: the run ends in an exit or an
    exception, or does not end. *)
Theorem restackBranch_cycle_never_returns (fuel : nat) (b : string)
    (opts : argsT) (w : World G) :
  tc (λ x c, c ∈ child_names (meta w) x) b b →
  (restackBranch fuel (mkBranch b) opts w).1 ≠ Returned tt.
Proof.
  intros Hcycle Hret.
  destruct (restackBranch fuel (mkBranch b) opts w) as [r w'] eqn:Hrun.
  simpl in Hret. subst r.
  apply restackBranch_returned in Hrun as (_ & _ & l & ? & ? & ? & ? & Hs & _).
  simpl in Hs. now rewrite (subtree_cycle _ fuel b Hcycle) in Hs.
Qed.

Lemma restackBranch_S_eq (f f' : nat) (b : Branch) (opts : argsT)
    (w : World G) :
  (∀ w1, parents (meta w1) = parents (meta w) →
         tracked (meta w1) = tracked (meta w) →
         for_of (children_of (meta w1) (name b))
           (λ c, restackBranch f' c opts) w1
         = for_of (children_of (meta w1) (name b))
             (λ c, restackBranch f c opts) w1) →
  restackBranch (S f') b opts w = restackBranch (S f) b opts w.
Proof.
  intros Hloop. simpl.
  unfold bind, rebaseInProgress, getParentFromMeta, getMetaMergeBase, reads.
  simpl. destruct (git_rebaseInProgress (git w)); [reflexivity|]. simpl.
  destruct (parents (meta w) !! name b) as [p|]; [|reflexivity]. simpl.
  destruct (truthy_string (metaMergeBase (name b) w)) as [mb|]; [|reflexivity].
  unfold checkoutBranch, execSync. simpl.
  destruct (git_checkout (name b) (git w)) as [[[]| | |] g1]; try reflexivity.
  simpl. destruct (git_exec (cmd_rebase p mb (name b)) g1) as [[] g2];
    [|reflexivity].
  match goal with
  | |- for_of _ _ ?w1 = _ => apply (Hloop w1); reflexivity
  end.
Qed.

Lemma restack_loop_eq (f f' : nat) (opts : argsT) (m : Meta) :
  (∀ b w l, parents (meta w) = parents m → tracked (meta w) = tracked m →
            subtree (child_names m) f (name b) = Some l →
            restackBranch f' b opts w = restackBranch f b opts w) →
  ∀ cs ls w,
    parents (meta w) = parents m → tracked (meta w) = tracked m →
    mapM (subtree (child_names m) f) (name <$> cs) = Some ls →
    for_of cs (λ c, restackBranch f' c opts) w
    = for_of cs (λ c, restackBranch f c opts) w.
Proof.
  intros Hbody cs. induction cs as [|c cs IH]; intros ls w Hp Ht Hm;
    [reflexivity|].
  apply mapM_Some in Hm. rewrite fmap_cons in Hm.
  apply Forall2_cons_inv_l in Hm as (lc & ls' & Hc & Hcs & ->).
  apply mapM_Some in Hcs.
  rewrite !for_of_cons. unfold bind.
  rewrite (Hbody c w lc Hp Ht Hc).
  destruct (restackBranch f c opts w) as [[[]| | |] w1] eqn:E; try reflexivity.
  apply restackBranch_extends in E as (Hp1 & Ht1 & _).
  apply (IH ls'); [congruence|congruence|exact Hcs].
Qed.

Lemma restackBranch_depth (f : nat) (opts : argsT) (m : Meta) :
  ∀ f' b (w : World G) l,
    parents (meta w) = parents m → tracked (meta w) = tracked m →
    subtree (child_names m) f (name b) = Some l → f ≤ f' →
    restackBranch f' b opts w = restackBranch f b opts w.
Proof.
  induction f as [|f IH]; intros f' b w l Hp Ht Hs Hle; [discriminate|].
  destruct f' as [|f']; [lia|].
  rewrite subtree_S in Hs.
  destruct (mapM (subtree (child_names m) f) (child_names m (name b)))
    as [ls|] eqn:Hm; [|discriminate].
  apply restackBranch_S_eq. intros w1 Hp1 Ht1.
  apply (restack_loop_eq f f' opts m) with (ls := ls).
  - intros c w2 lc Hp2 Ht2 Hc. apply (IH f' c w2 lc Hp2 Ht2 Hc). lia.
  - congruence.
  - congruence.
  - rewrite names_children_of.
    rewrite (child_names_ext m (meta w1)); [exact Hm|congruence|congruence].
Qed.

(** X8. The traversal ends within the depth of the subtree: when the
    branches under [b] are listed within [fuel] levels, [restackBranch]
    gives the same outcome and world with any larger bound. *)
Theorem restackBranch_depth_suffices (fuel fuel' : nat) (b : string)
    (opts : argsT) (w : World G) (l : list string) :
  subtree (child_names (meta w)) fuel b = Some l →
  fuel ≤ fuel' →
  restackBranch fuel' (mkBranch b) opts w
  = restackBranch fuel (mkBranch b) opts w.
Proof.
  intros Hs Hle. now apply (restackBranch_depth fuel opts (meta w)) with (l := l).
Qed.

(** X10. A restack command that returns started on a branch with a clean
    tree, and the last thing in its trace is the checkout of that
    branch. *)
Theorem _execute_returns_to_original (fuel : nat) (argv : argsT)
    (w w' : World G) :
  _execute fuel argv w = (Returned tt, w') →
  ∃ original events,
    git_uncommittedChanges (git w) = false ∧
    git_currentBranch (git w) = Some original ∧
    trace w' = trace w ++ events ++ [Checkout (name original)].
Proof.
  intros Hrun.
  unfold _execute, uncommittedChanges, getCurrentBranch, reads, bind in Hrun.
  simpl in Hrun.
  destruct (git_uncommittedChanges (git w)); [discriminate|]. simpl in Hrun.
  set (w0 := mkWorld (git w) (meta w)
               (output w ++ [Log "Before restack:" (silent argv)]) (trace w))
    in Hrun.
  assert (∃ out, (if silent argv then ret tt else printStacks) w0
                 = (Returned tt, mkWorld (git w) (meta w) out (trace w)))
    as [out Hout] by (destruct (silent argv); eexists; reflexivity).
  rewrite Hout in Hrun. simpl in Hrun.
  destruct (git_currentBranch (git w)) as [original|]; [|discriminate].
  exists original.
  match type of Hrun with
  | context [match ?t ?w1 with _ => _ end] =>
      destruct (t w1) as [[[]| | |] w2] eqn:Htraverse; try discriminate
  end.
  assert (∃ events, trace w2 = trace w ++ events) as [events Hev].
  { destruct (truthy_string (onto argv)) as [T|].
    - destruct original as [C].
      apply restackOnto_reparented in Htraverse as (_ & _ & _ & He).
      exact He.
    - unfold getChildrenFromMeta, reads, bind in Htraverse.
      apply restack_children_extends in Htraverse as (_ & _ & He). exact He. }
  exists events. split; [reflexivity|]. split; [reflexivity|].
  unfold checkoutBranch in Hrun.
  destruct (git_checkout (name original) (git w2)) as [[[]| | |] g3];
    try discriminate.
  simpl in Hrun. destruct (silent argv); injection Hrun as <-; simpl;
    rewrite Hev; now rewrite app_assoc.
Qed.

(** X11. A [restackBranch b] that returns has written the previous refs of
    the branches of the subtree of [b] only; every other branch keeps its
    previous ref. *)
Theorem restackBranch_touches_subtree_only (fuel : nat) (b : string)
    (opts : argsT) (w w' : World G) :
  restackBranch fuel (mkBranch b) opts w = (Returned tt, w') →
  ∃ l, subtree (child_names (meta w)) fuel b = Some l ∧
       ∀ x, x ∉ l → prevRefs (meta w') !! x = prevRefs (meta w) !! x.
Proof.
  intros Hrun.
  apply restackBranch_returned in Hrun
    as (_ & _ & l & ? & ? & ? & ? & Hs & Hfr & _).
  exists l. split; [exact Hs|exact Hfr].
Qed.

End RestackMore.

Section RestackMoreRuns.
Import Restack.

Lemma restackOnto_requires_parent_witness :
  let H := Toy.host [] true in
  @restackOnto _ H 3 (mkBranch "feature") "A" (Toy.args (Some "A"))
    (Toy.world "feature" false)
  = (Exited 1,
     refused (Log (msg_no_parent_onto "feature") false)
       (Toy.world "feature" false)).
Proof.
  apply (@restackOnto_requires_parent _ (Toy.host [] true) 3 "feature" "A");
    reflexivity.
Defined.

Lemma _execute_requires_branch_witness :
  let H := Toy.host [] true in
  (@_execute _ H 3 (Toy.args None) Toy.detached_world).1 = Exited 1.
Proof.
  intros H.
  rewrite (@_execute_requires_branch _ H 3 (Toy.args None)
             Toy.detached_world); reflexivity.
Defined.

Lemma _execute_requires_clean_tree_witness :
  let H := Toy.host [] true in
  @_execute _ H 3 (Toy.args None) (Toy.world "main" true)
  = (Exited 1,
     refused (ErrorAndExit "Cannot restack with uncommitted changes")
       (Toy.world "main" true)).
Proof.
  apply (@_execute_requires_clean_tree _ (Toy.host [] true) 3). reflexivity.
Defined.

Lemma _execute_keeps_parents_witness :
  let H := Toy.host ["git rebase --onto A a1' B"] true in
  let w := Toy.world "main" false in
  let r := @_execute _ H 4 (Toy.args None) w in
  parents (meta r.2) = parents (meta w) ∧
  tracked (meta r.2) = tracked (meta w) ∧
  ∃ events, trace r.2 = trace w ++ events.
Proof.
  intros H w r.
  apply (@_execute_keeps_parents _ H 4 (Toy.args None) w r.1 r.2);
    [reflexivity|]. apply surjective_pairing.
Defined.

Lemma restackBranch_records_tip_witness :
  let H := Toy.host [] true in
  let w := Toy.world "main" false in
  prevRefs (meta (@restackBranch _ H 4 (mkBranch "A") (Toy.args None) w).2)
    !! "A" = Some "a1".
Proof.
  intros H w.
  apply (@restackBranch_records_tip _ H 4 "A" (Toy.args None) w).
  vm_compute. reflexivity.
Defined.

Lemma restackBranch_cycle_never_returns_witness :
  let H := Toy.host [] true in
  (@restackBranch _ H 6 (mkBranch "A") (Toy.args None) Toy.cyclic_world).1
  ≠ Returned tt.
Proof.
  intros H.
  apply (@restackBranch_cycle_never_returns _ H 6 "A").
  apply tc_l with "B"; [|apply tc_once];
    apply list_elem_of_In; vm_compute; auto.
Defined.

Lemma restackBranch_depth_suffices_witness :
  let H := Toy.host [] true in
  let w := Toy.world "main" false in
  @restackBranch _ H 7 (mkBranch "A") (Toy.args None) w
  = @restackBranch _ H 3 (mkBranch "A") (Toy.args None) w.
Proof.
  intros H w.
  apply (@restackBranch_depth_suffices _ H 3 7 "A" (Toy.args None) w
           ["A"; "B"; "C"]); [vm_compute; reflexivity|lia].
Defined.

Lemma restackBranch_proceeds_witness :
  let H := Toy.host [] true in
  let w := Toy.world "B" true in
  ∃ r w' events,
    @restackBranch _ H 2 (mkBranch "C") (Toy.args None) w = (r, w') ∧
    trace w' = trace w ++ SetPrevRef "C" "c1" :: Checkout "C" :: events.
Proof.
  intros H w.
  apply (@restackBranch_proceeds _ H 1 "C" "B" "b1" (Toy.args None) w);
    reflexivity.
Defined.

Lemma _execute_returns_to_original_witness :
  let H := Toy.host [] true in
  let w := Toy.world "A" false in
  let w' := (@_execute _ H 4 (Toy.args (Some "feature")) w).2 in
  ∃ original events,
    @git_uncommittedChanges _ H (git w) = false ∧
    @git_currentBranch _ H (git w) = Some original ∧
    trace w' = trace w ++ events ++ [Checkout (name original)].
Proof.
  intros H w w'.
  apply (@_execute_returns_to_original _ H 4 (Toy.args (Some "feature")) w w').
  vm_compute. reflexivity.
Defined.

Lemma restackBranch_touches_subtree_only_witness :
  let H := Toy.host [] true in
  let w := Toy.world "main" false in
  let w' := (@restackBranch _ H 4 (mkBranch "B") (Toy.args None) w).2 in
  ∃ l, subtree (child_names (meta w)) 4 "B" = Some l ∧
       ∀ x, x ∉ l → prevRefs (meta w') !! x = prevRefs (meta w) !! x.
Proof.
  intros H w w'.
  apply (@restackBranch_touches_subtree_only _ H 4 "B" (Toy.args None) w w').
  vm_compute. reflexivity.
Defined.

End RestackMoreRuns.

(** ** Submit, continued *)

Section SubmitMore.
Import Submit.
Context `{!Env}.

#[local] Arguments msg_merged_head : simpl never.
#[local] Arguments msg_merged_hint : simpl never.
#[local] Arguments msg_closed_head : simpl never.
#[local] Arguments msg_closed_hint : simpl never.
#[local] Arguments msg_empty_head : simpl never.
#[local] Arguments msg_empty_question : simpl never.
#[local] Arguments msg_no_parent : simpl never.
#[local] Arguments msg_step1 : simpl never.
#[local] Arguments empty_choices : simpl never.
#[local] Arguments bullet : simpl never.
#[local] Arguments msg_auth_expired : simpl never.
#[local] Arguments msg_unexpected : simpl never.
#[local] Arguments msg_submit_failed : simpl never.

(** X12. For the scopes UPSTACK, DOWNSTACK and FULLSTACK, a submit set that
    is returned holds no trunk branch, and any exception of the current-
    branch check, the stack builder or the validator leaves as the
    [ValidationFailedError] "Validation failed. Will not submit.". *)
Theorem getAllBranchesToSubmit_stack_scope (scope : TScope) (w : World) :
  match getAllBranchesToSubmit (Scope scope) w with
  | (Returned bs, _) => ∀ b, b ∈ bs → isTrunk b = false
  | (Threw e, _) =>
      e = ValidationFailedError "Validation failed. Will not submit."
  | _ => True
  end.
Proof.
  unfold getAllBranchesToSubmit, try_catch_rethrow.
  match goal with |- context [match ?m w with _ => _ end] =>
    destruct (m w) as [[bs|e|c|] w'] eqn:E end; try exact I; [|reflexivity].
  intros b Hb.
  apply bind_returned_inv in E as (cur & w1 & _ & E).
  apply bind_returned_inv in E as (stack & w2 & _ & E).
  apply bind_returned_inv in E as ([] & w3 & _ & E).
  apply bind_returned_inv in E as ([] & w4 & _ & E).
  injection E as <- _. now apply list_elem_of_filter in Hb as [Hb _].
Qed.

Lemma checkForEmptyBranches_threw (bs : list Branch) (w : World) b :
  filterM (λ branch,
      let* baseName := getBranchBaseName branch in
      ret (isEmptyBranch (name branch) baseName)) bs w
    = (Threw (PreconditionsFailedError (msg_no_parent (name b))), w) →
  checkForEmptyBranches bs w
    = (Threw (PreconditionsFailedError (msg_no_parent (name b))), w).
Proof. intros E. unfold checkForEmptyBranches, bind at 1. now rewrite E. Qed.

(** X15. The first branch of the input without a parent in meta makes
    [checkForEmptyBranches] throw a [PreconditionsFailedError] that names
    it, before anything is printed, whatever the branches before it are. *)
Theorem checkForEmptyBranches_first_parentless
    (before after : list Branch) (b : Branch) (w : World) :
  (∀ x, x ∈ before → is_Some (parents w !! name x)) →
  parents w !! name b = None →
  checkForEmptyBranches (before ++ b :: after) w
    = (Threw (PreconditionsFailedError (msg_no_parent (name b))), w).
Proof.
  intros Hbefore Hb. apply checkForEmptyBranches_threw.
  induction before as [|x before IH]; simpl app.
  - rewrite filterM_cons. unfold bind at 1.
    now rewrite getBranchBaseName_run, Hb.
  - destruct (Hbefore x) as [p Hx]; [apply list_elem_of_here|].
    rewrite filterM_cons. unfold bind at 1.
    rewrite getBranchBaseName_run, Hx. unfold ret at 1.
    rewrite IH; [reflexivity|].
    intros y Hy. apply Hbefore. now apply list_elem_of_further.
Qed.

(** X16. Whatever its outcome, [checkForEmptyBranches] only prints: PR
    infos, parents and the requests sent are as before, and the output is
    extended. *)
Theorem checkForEmptyBranches_reads_only (bs : list Branch) (w : World) :
  let w' := (checkForEmptyBranches bs w).2 in
  prInfos w' = prInfos w ∧ parents w' = parents w ∧
  api_calls w' = api_calls w ∧ ∃ lines, output w' = output w ++ lines.
Proof.
  intros w'. subst w'.
  destruct (decide (Forall (λ b, is_Some (parents w !! name b)) bs))
    as [Hp|Hp]; rewrite Forall_forall in Hp.
  - rewrite (checkForEmptyBranches_run bs w Hp).
    destruct (decide _); [|destruct interactive;
      [destruct (empty_answer w _)|]]; simpl; repeat split;
      try (now eexists); exists []; now rewrite app_nil_r.
  - destruct (filterM_empty_threw bs w Hp) as (b & _ & _ & Hrun).
    rewrite (checkForEmptyBranches_threw bs w b Hrun). simpl.
    repeat split. exists []. now rewrite app_nil_r.
Qed.

(** X13. When, after the sync, no branch of the submit set has a merged or
    closed PR and every branch has a parent and a non-empty diff against
    it, [getValidBranchesToSubmit] returns the whole submit set and adds
    nothing to what the sync left. *)
Theorem getValidBranchesToSubmit_clean (scope : TSubmitScope)
    (w w1 w2 : World) (bs : list Branch) :
  getAllBranchesToSubmit scope (say w [LogInfo (chalk blueBright msg_step1)])
    = (Returned bs, w1) →
  syncPRInfoForBranches bs w1 = (Returned tt, w2) →
  (∀ b, b ∈ bs →
     prInfos w2 !! name b ≫= pr_state ≠ Some MERGED ∧
     prInfos w2 !! name b ≫= pr_state ≠ Some CLOSED ∧
     ∃ p, parents w2 !! name b = Some p ∧
          isEmptyBranch (name b) p = false) →
  getValidBranchesToSubmit scope w = (Returned bs, w2).
Proof.
  intros Hall Hsync Hok.
  assert (∀ s, (∀ b, b ∈ bs → prInfos w2 !! name b ≫= pr_state ≠ Some s) →
               with_state w2 s bs = []) as Hnone.
  { intros s Hs. unfold with_state. now apply filter_none. }
  unfold getValidBranchesToSubmit, logInfo, bind at 1. rewrite emit_say.
  unfold bind at 1. rewrite Hall. unfold bind at 1. rewrite Hsync.
  unfold bind at 1. rewrite hasAnyMergedBranches_run.
  rewrite Hnone by (intros b Hb; apply Hok, Hb). simpl.
  unfold bind at 1. rewrite hasAnyClosedBranches_run.
  rewrite Hnone by (intros b Hb; apply Hok, Hb). simpl.
  rewrite checkForEmptyBranches_run.
  2:{ intros b Hb. destruct (Hok b Hb) as (_ & _ & p & Hp & _). eauto. }
  rewrite decide_True; [reflexivity|].
  unfold empty_branches. apply filter_none. intros b Hb.
  destruct (Hok b Hb) as (_ & _ & p & Hp & He).
  unfold branch_is_empty. rewrite Hp, He. discriminate.
Qed.

(** X14. In scope BRANCH the current branch is taken as it is: when it has
    no parent in meta (and no merged or closed PR), the validation throws
    the [PreconditionsFailedError] that names it. *)
Theorem getValidBranchesToSubmit_branch_without_parent
    (w w1 w2 : World) (b : Branch) :
  currentBranchPrecondition (say w [LogInfo (chalk blueBright msg_step1)])
    = (Returned b, w1) →
  syncPRInfoForBranches [b] w1 = (Returned tt, w2) →
  prInfos w2 !! name b ≫= pr_state ≠ Some MERGED →
  prInfos w2 !! name b ≫= pr_state ≠ Some CLOSED →
  parents w2 !! name b = None →
  getValidBranchesToSubmit BRANCH w
    = (Threw (PreconditionsFailedError (msg_no_parent (name b))), w2).
Proof.
  intros Hcur Hsync Hm Hc Hp.
  unfold getValidBranchesToSubmit, logInfo, bind at 1. rewrite emit_say.
  unfold bind at 1. unfold getAllBranchesToSubmit, bind at 1. rewrite Hcur.
  unfold ret at 1. unfold bind at 1. rewrite Hsync.
  unfold bind at 1. rewrite hasAnyMergedBranches_run.
  assert (∀ s, prInfos w2 !! name b ≫= pr_state ≠ Some s →
               with_state w2 s [b] = []) as Hnone.
  { intros s Hs. unfold with_state. apply filter_none.
    intros x Hx. apply list_elem_of_singleton in Hx as ->. exact Hs. }
  rewrite (Hnone _ Hm). simpl.
  unfold bind at 1. rewrite hasAnyClosedBranches_run.
  rewrite (Hnone _ Hc). simpl.
  apply checkForEmptyBranches_threw. rewrite filterM_cons. unfold bind at 1.
  now rewrite getBranchBaseName_run, Hp.
Qed.

Lemma foldl_requests_lookup_ne (l : list TSubmittedPRRequest)
    (m : gmap string TSubmittedPRRequest) (h : string) :
  (∀ r, r ∈ l → req_head r ≠ h) →
  foldl (λ requests prRequest, <[req_head prRequest := prRequest]> requests)
    m l !! h = m !! h.
Proof.
  revert m. induction l as [|x l IH]; intros m Hl; [reflexivity|].
  simpl. rewrite IH by (intros r Hr; apply Hl; now apply list_elem_of_further).
  apply lookup_insert_ne, Hl, list_elem_of_here.
Qed.

(** X18. When several requests of a batch have the same head, the one paired
    with a response for that head is the last of them. *)
Theorem requests_by_head_last_wins
    (earlier later : list TSubmittedPRRequest) (r : TSubmittedPRRequest) :
  (∀ r', r' ∈ later → req_head r' ≠ req_head r) →
  requests_by_head (earlier ++ r :: later) !! req_head r = Some r.
Proof.
  intros Hlater. unfold requests_by_head. rewrite foldl_app. simpl.
  rewrite foldl_requests_lookup_ne by exact Hlater.
  apply lookup_insert_eq.
Qed.

Lemma run_success (submissionInfo : list TSubmittedPRRequest)
    (mergeWhenReady : bool) (trunkBranchName : string) (w : World) :
  let params := mkParams getRepoOwner getRepoName mergeWhenReady
                  trunkBranchName submissionInfo in
  let reply := server params in
  status (_response reply) = SUCCESS_RESPONSE_CODE →
  body_truthy (_response reply) = true →
  requestServerToSubmitPRs submissionInfo mergeWhenReady trunkBranchName w
  = (Returned ((λ prResponse,
                  mkSubmittedPR
                    (requests_by_head submissionInfo !! resp_head prResponse)
                    prResponse) <$> response_prs reply),
     requested submissionInfo params w).
Proof.
  intros params reply Hs Hb.
  pose proof (requestServerToSubmitPRs_run submissionInfo mergeWhenReady
                trunkBranchName w) as Hrun.
  cbv zeta in Hrun. fold params reply in Hrun.
  now rewrite Hs, Hb in Hrun.
Qed.

(** X17. A 200 response with a body and an empty list of PRs makes
    [submitPullRequest] throw a [TypeError] after the request was sent; no
    PR info is written. *)
Theorem submitPullRequest_empty_response
    (submissionInfo : list TSubmittedPRRequest) (mergeWhenReady : bool)
    (trunkBranchName cliAuthToken : string) (w : World) :
  let params := mkParams getRepoOwner getRepoName mergeWhenReady
                  trunkBranchName submissionInfo in
  let reply := server params in
  status (_response reply) = SUCCESS_RESPONSE_CODE →
  body_truthy (_response reply) = true →
  response_prs reply = [] →
  submitPullRequest submissionInfo mergeWhenReady trunkBranchName
    cliAuthToken w
  = (Threw TypeError, requested submissionInfo params w).
Proof.
  intros params reply Hs Hb Hprs. subst reply params.
  unfold submitPullRequest, bind at 1.
  rewrite (run_success _ _ _ _ Hs Hb). now rewrite Hprs.
Qed.

(** X19. Whatever its outcome, [submitPullRequest] sends exactly one
    request, with the batch it was given, leaves the parents alone, and
    writes no PR info except that of the head of the first response. *)
Theorem submitPullRequest_frame
    (submissionInfo : list TSubmittedPRRequest) (mergeWhenReady : bool)
    (trunkBranchName cliAuthToken : string) (w : World) :
  let params := mkParams getRepoOwner getRepoName mergeWhenReady
                  trunkBranchName submissionInfo in
  let reply := server params in
  let w' := (submitPullRequest submissionInfo mergeWhenReady trunkBranchName
               cliAuthToken w).2 in
  parents w' = parents w ∧
  api_calls w' = api_calls w ++ [params] ∧
  ∀ h, resp_head <$> response_prs reply !! 0%nat ≠ Some h →
       prInfos w' !! h = prInfos w !! h.
Proof.
  intros params reply w'. subst w'.
  pose proof (requestServerToSubmitPRs_run submissionInfo mergeWhenReady
                trunkBranchName w) as Hrun.
  cbv zeta in Hrun. subst reply params.
  destruct (submitPullRequest submissionInfo mergeWhenReady trunkBranchName
              cliAuthToken w) as [r w'] eqn:E.
  unfold submitPullRequest, bind at 1 in E. rewrite Hrun in E. clear Hrun.
  simpl.
  destruct (bool_decide _ && _).
  2:{ destruct (bool_decide _); injection E as _ <-; simpl; repeat split;
        intros; reflexivity. }
  simpl in E.
  destruct (response_prs _) as [|[head st n url|head error] others];
    simpl in *.
  - injection E as _ <-. repeat split; intros; reflexivity.
  - destruct (requests_by_head submissionInfo !! head) as [request|];
      injection E as _ <-; simpl.
    + repeat split. intros h Hh. apply lookup_insert_ne. congruence.
    + repeat split; intros; reflexivity.
  - injection E as _ <-. repeat split; intros; reflexivity.
Qed.

(** X20. On success, an [update] request leaves the stored title, body and
    review decision as they are; a [create] request stores the title and
    the body it carries and the decision REVIEW_REQUIRED; the draft flag is
    written only when the request carries one. *)
Theorem submitPullRequest_create_or_update
    (submissionInfo : list TSubmittedPRRequest) (mergeWhenReady : bool)
    (trunkBranchName cliAuthToken : string) (w : World)
    (head : string) (st : SuccessStatus) (prNumber : Z) (prURL : string)
    (others : list TSubmittedPRResponse) (request : TSubmittedPRRequest) :
  let params := mkParams getRepoOwner getRepoName mergeWhenReady
                  trunkBranchName submissionInfo in
  let reply := server params in
  let w' := (submitPullRequest submissionInfo mergeWhenReady trunkBranchName
               cliAuthToken w).2 in
  let old := default empty_prInfo (prInfos w !! head) in
  status (_response reply) = SUCCESS_RESPONSE_CODE →
  body_truthy (_response reply) = true →
  response_prs reply = ResponseOk head st prNumber prURL :: others →
  requests_by_head submissionInfo !! head = Some request →
  ∃ info,
    prInfos w' !! head = Some info ∧
    match req_action request with
    | update =>
        pr_title info = pr_title old ∧ pr_body info = pr_body old ∧
        pr_reviewDecision info = pr_reviewDecision old
    | create =>
        (∀ title, req_title request = Some title →
                  pr_title info = Some title) ∧
        (∀ body, req_body request = Some body → pr_body info = Some body) ∧
        pr_reviewDecision info = Some REVIEW_REQUIRED
    end ∧
    pr_draft info = from_option Some (pr_draft old) (req_draft request).
Proof.
  intros params reply w' old Hs Hb Hprs Hreq. subst w' reply params.
  unfold submitPullRequest, bind at 1.
  rewrite (run_success _ _ _ _ Hs Hb). rewrite Hprs. simpl.
  rewrite Hreq. simpl. rewrite lookup_insert_eq. eexists. split; [reflexivity|].
  fold old. unfold merge_prInfo, submitted_patch. simpl.
  destruct (req_action request); simpl;
    destruct (req_title request), (req_body request), (req_draft request);
    simpl; repeat split; try reflexivity; intros; congruence.
Qed.

End SubmitMore.

Section SubmitMoreRuns.
Import Submit.

Lemma getValidBranchesToSubmit_clean_witness :
  let E := Toy.quiet_env (Toy.reply 200 []) in
  let w := Toy.submit_world ∅ in
  @getValidBranchesToSubmit E (Scope FULLSTACK) w
  = (Returned (mkBranch <$> ["A"; "B"; "C"]),
     say w [LogInfo msg_step1; LogNewline]).
Proof.
  intros E w.
  apply (@getValidBranchesToSubmit_clean E (Scope FULLSTACK) w
           (say w [LogInfo msg_step1; LogNewline])
           (say w [LogInfo msg_step1; LogNewline])
           (mkBranch <$> ["A"; "B"; "C"])); [reflexivity..|].
  intros b Hb. repeat (apply elem_of_cons in Hb as [->|Hb]);
    [| | |now apply elem_of_nil in Hb];
    (split; [discriminate|split; [discriminate|eexists; split; reflexivity]]).
Defined.

Lemma getValidBranchesToSubmit_branch_without_parent_witness :
  let E := Toy.quiet_env (Toy.reply 200 []) in
  let w := mkWorld ∅ ∅ [] [] in
  @getValidBranchesToSubmit E BRANCH w
  = (Threw (PreconditionsFailedError (msg_no_parent "B")),
     say w [LogInfo msg_step1]).
Proof.
  intros E w.
  apply (@getValidBranchesToSubmit_branch_without_parent E w
           (say w [LogInfo msg_step1]) (say w [LogInfo msg_step1])
           (mkBranch "B")); try reflexivity; discriminate.
Defined.

Lemma checkForEmptyBranches_first_parentless_witness :
  let E := Toy.env false Cancelled (Toy.reply 200 []) in
  let w := Toy.submit_world ∅ in
  @checkForEmptyBranches E
    ([mkBranch "B"] ++ mkBranch "feature" :: [mkBranch "A"]) w
  = (Threw (PreconditionsFailedError (msg_no_parent "feature")), w).
Proof.
  intros E w.
  apply (@checkForEmptyBranches_first_parentless E [mkBranch "B"]
           [mkBranch "A"] (mkBranch "feature") w); [|reflexivity].
  intros x Hx. apply list_elem_of_singleton in Hx as ->. now eexists.
Defined.

Lemma submitPullRequest_empty_response_witness :
  let E := Toy.env false Cancelled (Toy.reply 200 []) in
  let batch := [Toy.request create "B" "A"] in
  let w := Toy.submit_world ∅ in
  @submitPullRequest E batch false "main" "token" w
  = (Threw TypeError,
     requested batch (mkParams "mx1ao" "graphite-cli" false "main" batch) w).
Proof.
  intros E batch w.
  apply (@submitPullRequest_empty_response E batch false "main" "token" w);
    reflexivity.
Defined.

Lemma requests_by_head_last_wins_witness :
  requests_by_head
    ([Toy.request create "B" "main"] ++
     Toy.request update "B" "A" :: [Toy.request create "C" "B"])
    !! "B"
  = Some (Toy.request update "B" "A").
Proof.
  apply (requests_by_head_last_wins [Toy.request create "B" "main"]
           [Toy.request create "C" "B"] (Toy.request update "B" "A")).
  intros r Hr. apply list_elem_of_singleton in Hr as ->. discriminate.
Defined.

Lemma submitPullRequest_create_or_update_witness :
  let E := Toy.env false Cancelled
             (Toy.reply 200 [ResponseOk "B" updated 7 "https://host/pr/7"]) in
  let stored := mkPRInfo (Some 7%Z) (Some "https://host/pr/7") (Some "main")
                  (Some OPEN) (Some "Old title") (Some "Old body")
                  (Some APPROVED) (Some true) in
  let w := Toy.submit_world {[ "B" := stored ]} in
  let w' := (@submitPullRequest E [Toy.request update "B" "A"] false "main"
               "token" w).2 in
  ∃ info,
    prInfos w' !! "B" = Some info ∧
    (pr_title info = Some "Old title" ∧ pr_body info = Some "Old body" ∧
     pr_reviewDecision info = Some APPROVED) ∧
    pr_draft info = Some true.
Proof.
  intros E stored w w'.
  apply (@submitPullRequest_create_or_update E [Toy.request update "B" "A"]
           false "main" "token" w "B" updated 7 "https://host/pr/7" []
           (Toy.request update "B" "A")); reflexivity.
Defined.

End SubmitMoreRuns.
